(** * flutter_soloud: the sound registry of [Player] (src/player.h, src/player.cpp)

    A shallow embedding of the [Player] class: the vector [sounds] of owned
    [ActiveSound] objects, the handle list of each sound, the lookup by
    hash ([std::find_if]), the lookup by handle ([findByHandle]) and the
    methods that read or change the registry ([init], [dispose],
    [loadFile], [play], [play3d], [stop], [stopSound], [pauseSwitch],
    [getPause], [setEchoFilter], [textToSpeech], [getLength], [seek], ...).

    The SoLoud engine is an external collaborator.  Every answer the engine
    gives (a result code, a voice handle, a pause flag, a length) is an
    argument of the operation that asks for it, and every call made to an
    engine object is appended to a trace kept in the player.

    The file has three parts: the embedding, facts about the lookups and
    the vector algorithms, and the statements about the operations. *)

From Stdlib Require Import ZArith String Floats.PrimFloat.
From stdpp Require Import base list.

(** ** Outcomes

    [sounds] is a [std::vector<std::unique_ptr<ActiveSound>>]: a slot may
    hold a null pointer.  Dereferencing it, or erasing at [end()], is
    undefined behaviour; the embedding stops there with [UB]. *)

Inductive outcome (A : Type) : Type :=
| Ok (a : A)
| UB.
Arguments Ok {A} a.
Arguments UB {A}.

#[global] Instance outcome_ret : MRet outcome := fun A a => Ok a.
#[global] Instance outcome_bind : MBind outcome := fun A B k c =>
  match c with
  | Ok a => k a
  | UB => UB
  end.

(** ** The algorithms of <algorithm> and <vector> used by the player

    Iterators are positions; [length v] is [end()]. *)

Section Algorithms.
Context {A : Type}.
(** the predicate may dereference its argument *)
Variable pred : A → outcome bool.
(** what a moved-from element holds: itself for an [unsigned int],
    the null pointer for a [std::unique_ptr] *)
Variable moved : A → A.

(** [std::find_if(v.begin(), v.end(), pred)] *)
Fixpoint find_if (v : list A) : outcome nat :=
  match v with
  | [] => Ok 0
  | x :: v' =>
      b ← pred x;
      if b : bool then Ok 0 else i ← find_if v'; Ok (S i)
  end.

(** the loop of [std::remove_if]:
    [for (i = first; ++i != last;) if (!pred( *i)) *first++ = std::move( *i);]
    with [n] elements left to visit, the next one at position [i] *)
Fixpoint remove_if_loop (n i first : nat) (v : list A) : outcome (list A * nat) :=
  match n with
  | 0 => Ok (v, first)
  | S n' =>
      match v !! i with
      | None => UB
      | Some x =>
          b ← pred x;
          if b : bool then remove_if_loop n' (S i) first v
          else remove_if_loop n' (S i) (S first)
                 (<[i := moved x]> (<[first := x]> v))
      end
  end.

(** [std::remove_if(v.begin(), v.end(), pred)]: the vector after the
    shifts and the returned iterator *)
Definition remove_if (v : list A) : outcome (list A * nat) :=
  first ← find_if v;
  if decide (first < length v)
  then remove_if_loop (length v - S first) (S first) first v
  else Ok (v, first).

(** [v.erase(pos)] with a single iterator: removes the one element at
    [pos]; [pos] must be dereferenceable *)
Definition erase (v : list A) (pos : nat) : outcome (list A) :=
  if decide (pos < length v) then Ok (delete pos v) else UB.

(** [v.erase(std::remove_if(v.begin(), v.end(), pred))] *)
Definition erase_remove_if (v : list A) : outcome (list A) :=
  '(v', pos) ← remove_if v;
  erase v' pos.
End Algorithms.

(** ** Data model (player.h) *)

(** A [SoLoud::Wav] object, known by the calls made on it. *)
Inductive Wav : Type :=
| Wav_new
| Wav_load (w : Wav) (aFilename : string) (result : Z)
| Wav_setFilter (w : Wav) (aFilterId : Z) (aDelay aDecay aFilter : float).

Record ActiveSound : Type := mkActiveSound {
  sound : Wav;
  completeFileName : string;
  (** many instances of [sound] can be played without re-loading it *)
  handle : list Z;
  (** unique identifier of this sound based on the file name *)
  soundHash : Z
}.

(** Calls made to the engine objects ([soloud], [speech], a [Wav]). *)
Inductive EngineCall : Type :=
| call_init
| call_deinit
| call_load (aFilename : string)
| call_play (w : Wav) (volume pan : float) (paused : bool) (bus : Z)
| call_play3d (w : Wav) (aPosX aPosY aPosZ aVelX aVelY aVelZ aVolume : float)
    (aPaused : bool) (aBus : Z)
| call_play_speech
| call_stop (h : Z)
| call_stop_sound (w : Wav)
| call_getPause (h : Z)
| call_setPause (h : Z) (aPause : bool)
| call_setLooping (h : Z) (enable : bool)
| call_setText (text : string)
| call_getLength (w : Wav)
| call_seek (h : Z) (time : float)
| call_getStreamPosition (h : Z)
| call_setFilter (w : Wav) (aFilterId : Z) (aDelay aDecay aFilter : float)
| call_forwarded (method : string).

Record Player : Type := mkPlayer {
  (** all the sounds loaded; [None] is a null [unique_ptr] *)
  sounds : list (option ActiveSound);
  (** true when the backend is initialized *)
  mInited : bool;
  (** the calls made so far to the engine, oldest first *)
  soloud : list EngineCall
}.

(** [Player::Player() : mInited(false)] *)
Definition Player_new : Player := mkPlayer [] false [].

Definition set_sounds (v : list (option ActiveSound)) (p : Player) : Player :=
  mkPlayer v (mInited p) (soloud p).
Definition engine (c : EngineCall) (p : Player) : Player :=
  mkPlayer (sounds p) (mInited p) (soloud p ++ [c]).
Definition set_handle (l : list Z) (a : ActiveSound) : ActiveSound :=
  mkActiveSound (sound a) (completeFileName a) l (soundHash a).
Definition set_sound (w : Wav) (a : ActiveSound) : ActiveSound :=
  mkActiveSound w (completeFileName a) (handle a) (soundHash a).

(** [std::make_unique<ActiveSound>()] value-initialises the struct: its
    implicit constructor is not user-provided, so [soundHash] is zeroed. *)
Definition ActiveSound_new : ActiveSound := mkActiveSound Wav_new "" [] 0.

(** the lambda [f->soundHash == h] on a slot of [sounds] *)
Definition hash_is (h : Z) (f : option ActiveSound) : outcome bool :=
  match f with
  | Some a => Ok (soundHash a =? h)%Z
  | None => UB
  end.

(** the lambda [f == handle] on an entry of a handle list *)
Definition handle_is (h : Z) (f : Z) : outcome bool := Ok (f =? h)%Z.

(** a moved-from [unique_ptr] is null *)
Definition moved_ptr (f : option ActiveSound) : option ActiveSound := None.

(** [Player::getSoundsCount] *)
Definition getSoundsCount (p : Player) : nat := length (sounds p).

(** [Player::isInited] *)
Definition isInited (p : Player) : bool := mInited p.

(** ** [Player::findByHandle]

    The inner loop over [sounds[i]->handle], from position [index]. *)
Fixpoint find_in_handles (h : Z) (l : list Z) (index : nat) : option nat :=
  match l with
  | [] => None
  | x :: l' => if (x =? h)%Z then Some index else find_in_handles h l' (S index)
  end.

(** The outer loop over [sounds], from position [i].  The result is the
    position of the sound found (the returned pointer is [sounds[i].get()])
    and [*handleId]; [None] is [nullptr] with [*handleId = -1].  The
    counters are [int]s compared with [(int)size()]; the vectors are taken
    to be shorter than 2^31. *)
Fixpoint findByHandle_from (h : Z) (v : list (option ActiveSound)) (i : nat)
  : outcome (option (nat * nat)) :=
  match v with
  | [] => Ok None
  | None :: _ => UB
  | Some a :: v' =>
      match find_in_handles h (handle a) 0 with
      | Some index => Ok (Some (i, index))
      | None => findByHandle_from h v' (S i)
      end
  end.

Definition findByHandle (h : Z) (p : Player) : outcome (option (nat * nat)) :=
  findByHandle_from h (sounds p) 0.

(** ** The operations of [Player] (player.cpp) *)

Section Operations.
(** [std::hash<std::string>], from the C++ library *)
Variable std_hash : string → Z.
(** [SoLoud::SO_NO_ERROR], from soloud.h *)
Variable SO_NO_ERROR : Z.
(** enumerators of [PlayerErrors], from enums.h; [(PlayerErrors)result]
    keeps the number of the SoLoud result code *)
Variables backendNotInited fileAlreadyLoaded : Z.

(** [(unsigned int)std::hash<std::string>{}(completeFileName)] *)
Definition newHash_of (completeFileName : string) : Z :=
  (std_hash completeFileName mod 2 ^ 32)%Z.

(** [Player::dispose] *)
Definition dispose (p : Player) : Player :=
  mkPlayer [] false (soloud p ++ [call_deinit]).

(** [Player::init]; [result] is the answer of [soloud.init] *)
Definition init (result : Z) (p : Player) : Z * Player :=
  let p := if mInited p then dispose p else p in
  let p := engine call_init p in
  if (result =? SO_NO_ERROR)%Z
  then (result, mkPlayer (sounds p) true (soloud p))
  else (backendNotInited, p).

(** [Player::loadFile]; [hash] is the caller's variable behind the
    reference, [result] the answer of [sound.load].  Returns the error
    code and the final value of [hash]. *)
Definition loadFile (completeFileName : string) (hash : Z) (result : Z)
    (p : Player) : outcome (Z * Z * Player) :=
  if negb (mInited p) then Ok (backendNotInited, hash, p)
  else
    let hash := 0%Z in
    let newHash := newHash_of completeFileName in
    s ← find_if (hash_is newHash) (sounds p);
    if decide (s ≠ length (sounds p)) then Ok (fileAlreadyLoaded, hash, p)
    else
      let a := mkActiveSound (Wav_load Wav_new completeFileName result)
                 completeFileName [] newHash in
      let hash := newHash in
      let p := engine (call_load completeFileName)
                 (set_sounds (sounds p ++ [Some a]) p) in
      let p := if negb (result =? SO_NO_ERROR)%Z
               then set_sounds (sounds p ++ [None]) p   (* sounds.emplace_back() *)
               else p in
      Ok (result, hash, p).

(** [sound->handle[handleId]] for the sound found by [findByHandle] *)
Definition handle_at (p : Player) (i handleId : nat) : outcome Z :=
  match sounds p !! i with
  | Some (Some a) =>
      match handle a !! handleId with
      | Some h => Ok h
      | None => UB
      end
  | _ => UB
  end.

(** [Player::pauseSwitch]; [enginePaused] is the answer of [soloud.getPause] *)
Definition pauseSwitch (h : Z) (enginePaused : bool) (p : Player)
  : outcome Player :=
  r ← findByHandle h p;
  match r with
  | None => Ok p
  | Some (i, handleId) =>
      h' ← handle_at p i handleId;
      Ok (engine (call_setPause h' (negb enginePaused))
            (engine (call_getPause h') p))
  end.

(** [Player::getPause] *)
Definition getPause (h : Z) (enginePaused : bool) (p : Player)
  : outcome (bool * Player) :=
  r ← findByHandle h p;
  match r with
  | None => Ok (false, p)
  | Some (i, handleId) =>
      h' ← handle_at p i handleId;
      Ok (enginePaused, engine (call_getPause h') p)
  end.

(** [Player::play]; [newHandle] is the answer of [soloud.play] *)
Definition play (soundHash : Z) (volume pan : float) (paused : bool)
    (newHandle : Z) (p : Player) : outcome (Z * Player) :=
  s ← find_if (hash_is soundHash) (sounds p);
  if decide (s = length (sounds p)) then Ok (0%Z, p)
  else
    match sounds p !! s with
    | Some (Some a) =>
        let p := engine (call_play (sound a) volume pan paused 0) p in
        Ok (newHandle,
            set_sounds
              (<[s := Some (set_handle (handle a ++ [newHandle]) a)]> (sounds p)) p)
    | _ => UB
    end.

(** [Player::stop] *)
Definition stop (h : Z) (p : Player) : outcome Player :=
  r ← findByHandle h p;
  match r with
  | None => Ok p
  | Some (i, _) =>
      match sounds p !! i with
      | Some (Some a) =>
          let p := engine (call_stop h) p in
          (* remove the handle from the list *)
          l ← erase_remove_if (handle_is h) id (handle a);
          Ok (set_sounds (<[i := Some (set_handle l a)]> (sounds p)) p)
      | _ => UB
      end
  end.

(** [Player::stopSound] *)
Definition stopSound (soundHash : Z) (p : Player) : outcome Player :=
  s ← find_if (hash_is soundHash) (sounds p);
  if decide (s = length (sounds p)) then Ok p
  else
    match sounds p !! s with
    | Some (Some a) =>
        let p := engine (call_stop_sound (sound a)) p in
        (* remove the sound from the list *)
        v ← erase_remove_if (hash_is soundHash) moved_ptr (sounds p);
        Ok (set_sounds v p)
    | _ => UB
    end.

(** [Player::setLooping] *)
Definition setLooping (h : Z) (enable : bool) (p : Player) : Player :=
  engine (call_setLooping h enable) p.

(** [Player::setEchoFilter] *)
Definition setEchoFilter (h : Z) (filterId : Z) (aDelay aDecay aFilter : float)
    (p : Player) : outcome Player :=
  r ← findByHandle h p;
  match r with
  | None => Ok p
  | Some (i, _) =>
      match sounds p !! i with
      | Some (Some a) =>
          let p := engine (call_setFilter (sound a) filterId aDelay aDecay aFilter) p in
          Ok (set_sounds
                (<[i := Some (set_sound (Wav_setFilter (sound a) filterId aDelay
                                           aDecay aFilter) a)]> (sounds p)) p)
      | _ => UB
      end
  end.

(** [Player::textToSpeech]; [handle0] is the caller's variable behind the
  reference [handle], [result] the answer of [speech.setText] and
  [playHandle] the answer of [soloud.play(speech)].  Returns the error
  code and the final value of the caller's variable. *)
Definition textToSpeech (text : string) (handle0 : Z) (result playHandle : Z)
  (p : Player) : Z * Z * Player :=
if negb (mInited p) then (backendNotInited, handle0, p)
else
  let a := ActiveSound_new in
  let p := engine (call_setText text) (set_sounds (sounds p ++ [Some a]) p) in
  if (result =? SO_NO_ERROR)%Z then
    let p := engine call_play_speech p in
    (* sounds.back().get()->handle.push_back(handle) *)
    (result, playHandle,
     set_sounds
       (<[length (sounds p) - 1 := Some (set_handle (handle a ++ [playHandle]) a)]>
          (sounds p)) p)
  else
    (* sounds.emplace_back() *)
    (result, handle0, set_sounds (sounds p ++ [None]) p).

(** [Player::getLength]; [len] is the answer of [sound.getLength] *)
Definition getLength (soundHash : Z) (len : float) (p : Player)
  : outcome (float * Player) :=
  s ← find_if (hash_is soundHash) (sounds p);
  if decide (s = length (sounds p)) then Ok (0%float, p)
  else
    match sounds p !! s with
    | Some (Some a) => Ok (len, engine (call_getLength (sound a)) p)
    | _ => UB
    end.

(** [Player::seek]; [result] is the answer of [soloud.seek] *)
Definition seek (h : Z) (time : float) (result : Z) (p : Player) : Z * Player :=
  if negb (mInited p) then (backendNotInited, p)
  else (result, engine (call_seek h time) p).

(** [Player::getPosition]; [pos] is the answer of [soloud.getStreamPosition] *)
Definition getPosition (h : Z) (pos : float) (p : Player) : float * Player :=
  (pos, engine (call_getStreamPosition h) p).

(** [Player::debug]: prints every sound, dereferencing every slot *)
Definition debug (p : Player) : outcome Player :=
  if forallb (λ f : option ActiveSound, bool_decide (is_Some f)) (sounds p)
  then Ok p else UB.

(** The methods that only pass their arguments to [soloud] and hand back
    its answer: [setVisualizationEnabled], [isVisualizationEnabled],
    [calcFFT], [getWave], [getIsValidVoiceHandle], [update3dAudio],
    [set3dSoundSpeed], [get3dSoundSpeed] and the [set3dListener...] and
    [set3dSource...] setters. *)
Definition forwarded (method : string) (p : Player) : Player :=
  engine (call_forwarded method) p.

(** [Player::play3d]; [newHandle] is the answer of [soloud.play3d] *)
Definition play3d (soundHash : Z)
    (aPosX aPosY aPosZ aVelX aVelY aVelZ aVolume : float)
    (aPaused : bool) (aBus : Z) (newHandle : Z) (p : Player)
  : outcome (Z * Player) :=
  s ← find_if (hash_is soundHash) (sounds p);
  if decide (s = length (sounds p)) then Ok (0%Z, p)
  else
    match sounds p !! s with
    | Some (Some a) =>
        let p := engine (call_play3d (sound a) aPosX aPosY aPosZ
                           aVelX aVelY aVelZ aVolume aPaused aBus) p in
        Ok (newHandle,
            set_sounds
              (<[s := Some (set_handle (handle a ++ [newHandle]) a)]> (sounds p)) p)
    | _ => UB
    end.
End Operations.

(** ** The whole call surface

    One constructor per public method that touches the player, carrying the
    arguments of the call and the answers the engine gives during it; the
    methods that only forward to [soloud] share one constructor.
    ([getErrorString] is a constant table and is left out.) *)

Inductive Call : Type :=
| Op_init (result : Z)
| Op_dispose
| Op_loadFile (completeFileName : string) (hash : Z) (result : Z)
| Op_pauseSwitch (h : Z) (enginePaused : bool)
| Op_getPause (h : Z) (enginePaused : bool)
| Op_play (soundHash : Z) (volume pan : float) (paused : bool) (newHandle : Z)
| Op_stop (h : Z)
| Op_stopSound (soundHash : Z)
| Op_setLooping (h : Z) (enable : bool)
| Op_textToSpeech (text : string) (handle0 : Z) (result playHandle : Z)
| Op_getLength (soundHash : Z) (len : float)
| Op_seek (h : Z) (time : float) (result : Z)
| Op_getPosition (h : Z) (pos : float)
| Op_play3d (soundHash : Z)
    (aPosX aPosY aPosZ aVelX aVelY aVelZ aVolume : float)
    (aPaused : bool) (aBus : Z) (newHandle : Z)
| Op_setEchoFilter (h : Z) (filterId : Z) (aDelay aDecay aFilter : float)
| Op_isInited
| Op_getSoundsCount
| Op_debug
| Op_forwarded (method : string).

(** What a call gives back, by the return type of the C++ method. *)
Inductive Returned : Type :=
| R_void
| R_error (e : Z)              (* PlayerErrors *)
| R_error_out (e : Z) (out : Z) (* PlayerErrors and an unsigned int& *)
| R_handle (h : Z)             (* unsigned int *)
| R_bool (b : bool)
| R_seconds (d : float)
| R_count (n : nat)
| R_engine.                     (* whatever soloud answered *)

Section Run.
Variable std_hash : string → Z.
Variable SO_NO_ERROR : Z.
Variables backendNotInited fileAlreadyLoaded : Z.

Definition run (c : Call) (p : Player) : outcome (Returned * Player) :=
  match c with
  | Op_init result =>
      let '(e, p') := init SO_NO_ERROR backendNotInited result p in
      Ok (R_error e, p')
  | Op_dispose => Ok (R_void, dispose p)
  | Op_loadFile f hash result =>
      '(e, out, p') ← loadFile std_hash SO_NO_ERROR backendNotInited
                        fileAlreadyLoaded f hash result p;
      Ok (R_error_out e out, p')
  | Op_pauseSwitch h b => p' ← pauseSwitch h b p; Ok (R_void, p')
  | Op_getPause h b => '(r, p') ← getPause h b p; Ok (R_bool r, p')
  | Op_play k volume pan paused nh =>
      '(h, p') ← play k volume pan paused nh p; Ok (R_handle h, p')
  | Op_stop h => p' ← stop h p; Ok (R_void, p')
  | Op_stopSound k => p' ← stopSound k p; Ok (R_void, p')
  | Op_setLooping h b => Ok (R_void, setLooping h b p)
  | Op_textToSpeech text handle0 result ph =>
      let '(e, out, p') :=
        textToSpeech SO_NO_ERROR backendNotInited text handle0 result ph p in
      Ok (R_error_out e out, p')
  | Op_getLength k len => '(d, p') ← getLength k len p; Ok (R_seconds d, p')
  | Op_seek h t result =>
      let '(e, p') := seek backendNotInited h t result p in Ok (R_error e, p')
  | Op_getPosition h pos =>
      let '(d, p') := getPosition h pos p in Ok (R_seconds d, p')
  | Op_play3d k x y z vx vy vz vol paused bus nh =>
      '(h, p') ← play3d k x y z vx vy vz vol paused bus nh p; Ok (R_handle h, p')
  | Op_setEchoFilter h filterId aDelay aDecay aFilter =>
      p' ← setEchoFilter h filterId aDelay aDecay aFilter p; Ok (R_void, p')
  | Op_isInited => Ok (R_bool (isInited p), p)
  | Op_getSoundsCount => Ok (R_count (getSoundsCount p), p)
  | Op_debug => p' ← debug p; Ok (R_void, p')
  | Op_forwarded method => Ok (R_engine, forwarded method p)
  end.

(** The error code of a call that reports one. *)
Definition error_of (r : Returned) : option Z :=
  match r with
  | R_error e | R_error_out e _ => Some e
  | _ => None
  end.

(** States the player can be in: those a sequence of calls leads to from
    a fresh [Player]. *)
Inductive reachable : Player → Prop :=
| reachable_new : reachable Player_new
| reachable_run p c r p' :
    reachable p → run c p = Ok (r, p') → reachable p'.
End Run.

(** ** Sequences of calls *)

Section Sequences.
Variable std_hash : string → Z.
Variable SO_NO_ERROR : Z.
Variables backendNotInited fileAlreadyLoaded : Z.

(** the player after a sequence of calls *)
Fixpoint run_all (cs : list Call) (p : Player) : outcome Player :=
  match cs with
  | [] => Ok p
  | c :: cs' =>
      '(_, p') ← run std_hash SO_NO_ERROR backendNotInited fileAlreadyLoaded c p;
      run_all cs' p'
  end.
End Sequences.

(** ** Predicates on the registry *)

(** every slot of [sounds] owns a sound *)
Definition no_null_slot (p : Player) : Prop := None ∉ sounds p.

(** the sounds registered with hash [k], in registration order *)
Definition with_hash (k : Z) (p : Player) : list ActiveSound :=
  filter (λ a, soundHash a = k) (omap id (sounds p)).

(** [k] is the hash of some registered sound *)
Definition registered (k : Z) (p : Player) : Prop :=
  ∃ a, Some a ∈ sounds p ∧ soundHash a = k.

(** [h] is in the handle list of some registered sound *)
Definition listed (h : Z) (p : Player) : Prop :=
  ∃ a, Some a ∈ sounds p ∧ h ∈ handle a.

(** ** The check of [mInited] *)

(** the operations that start with [if (!mInited) return backendNotInited;] *)
Definition checks_inited (c : Call) : bool :=
  match c with
  | Op_loadFile _ _ _ | Op_textToSpeech _ _ _ _ | Op_seek _ _ _ => true
  | _ => false
  end.

(** the operations that assign [mInited] or return it *)
Definition about_inited (c : Call) : bool :=
  match c with
  | Op_init _ | Op_dispose | Op_isInited => true
  | _ => false
  end.

(** the playback operations: [play], [stop], [stopSound], [pauseSwitch],
    [getPause], [setLooping], [seek], [getPosition], [getLength] and
    [textToSpeech] *)
Definition playback_op (c : Call) : bool :=
  match c with
  | Op_play _ _ _ _ _ | Op_stop _ | Op_stopSound _ | Op_pauseSwitch _ _
  | Op_getPause _ _ | Op_setLooping _ _ | Op_seek _ _ _ | Op_getPosition _ _
  | Op_getLength _ _ | Op_textToSpeech _ _ _ _ => true
  | _ => false
  end.

Definition set_inited (b : bool) (p : Player) : Player :=
  mkPlayer (sounds p) b (soloud p).

Definition outcome_map {A B : Type} (f : A → B) (c : outcome A) : outcome B :=
  match c with
  | Ok a => Ok (f a)
  | UB => UB
  end.

(** a call fails with [backendNotInited]: it returns that code *)
Definition fails_not_inited (std_hash : string → Z)
    (SO_NO_ERROR backendNotInited fileAlreadyLoaded : Z)
    (c : Call) (p : Player) : Prop :=
  ∃ r p', run std_hash SO_NO_ERROR backendNotInited fileAlreadyLoaded c p
          = Ok (r, p') ∧ error_of r = Some backendNotInited.

(** the engine refuses the file or the text of the call *)
Definition engine_refuses (SO_NO_ERROR : Z) (c : Call) : bool :=
  match c with
  | Op_loadFile _ _ result | Op_textToSpeech _ _ result _ =>
      negb (result =? SO_NO_ERROR)%Z
  | _ => false
  end.

(** ** [stop] and [stopSound] for any sound, without side conditions *)

(** [stop h] removes one entry [h] from the list of whichever registered
    sound lists [h], keeps the other entries in order and keeps the sound *)
Definition stop_removes_entry (h : Z) (p : Player) : Prop :=
  ∀ i a, sounds p !! i = Some (Some a) → h ∈ handle a →
    ∃ l1 l2 p' a', handle a = l1 ++ h :: l2 ∧ stop h p = Ok p' ∧
      sounds p' !! i = Some (Some a') ∧ handle a' = l1 ++ l2 ∧
      getSoundsCount p' = getSoundsCount p.

(** [stopSound k] unloads whatever is registered with hash [k]: one sound
    less, none of the handles of such a sound resolves, the length is 0.0 *)
Definition stopSound_unloads (k : Z) (p : Player) : Prop :=
  registered k p →
  ∃ p', stopSound k p = Ok p' ∧
    S (getSoundsCount p') = getSoundsCount p ∧
    (∀ a h, Some a ∈ sounds p → soundHash a = k → h ∈ handle a →
       findByHandle h p' = Ok None) ∧
    (∀ len, getLength k len p' = Ok (0%float, p')).

(** ** Sample players *)

(** a toy string hash *)
Definition length_hash (s : string) : Z := Z.of_nat (String.length s).

(** one loaded sound with two live voices, and one loaded sound with none *)
Definition two_sounds : Player :=
  mkPlayer
    [Some (mkActiveSound (Wav_load Wav_new "a.wav" 0) "a.wav" [11; 12] 5);
     Some (mkActiveSound (Wav_load Wav_new "bb.wav" 0) "bb.wav" [] 6)]%Z
    true
    [call_init; call_load "a.wav"; call_load "bb.wav";
     call_play (Wav_load Wav_new "a.wav" 0) 1 0 false 0;
     call_play (Wav_load Wav_new "a.wav" 0) 1 0 false 0].

(** a sound played four times, the engine answering 5, 0, 0 and 7 *)
Definition replayed : Player :=
  mkPlayer [Some (mkActiveSound (Wav_load Wav_new "a.wav" 0) "a.wav" [5; 0; 0; 7] 5)]%Z
    true
    [call_init; call_load "a.wav";
     call_play (Wav_load Wav_new "a.wav" 0) 1 0 false 0;
     call_play (Wav_load Wav_new "a.wav" 0) 1 0 false 0;
     call_play (Wav_load Wav_new "a.wav" 0) 1 0 false 0;
     call_play (Wav_load Wav_new "a.wav" 0) 1 0 false 0].

(** two texts spoken, the engine answering with the voices 21 and 22 *)
Definition two_speeches : Player :=
  mkPlayer [Some (mkActiveSound Wav_new "" [21%Z] 0);
            Some (mkActiveSound Wav_new "" [22%Z] 0)]
    true
    [call_init; call_setText "a"; call_play_speech;
     call_setText "b"; call_play_speech].

(** a started player after [loadFile] of a file that [sound.load] refused
    with the code 2 *)
Definition refused_file : Player :=
  mkPlayer
    [Some (mkActiveSound (Wav_load Wav_new "missing.wav" 2) "missing.wav" [] 11);
     None]
    true [call_init; call_load "missing.wav"].

(** the same player after a text was spoken, the engine answering with the
    voice 21 *)
Definition refused_then_spoken : Player :=
  mkPlayer
    [Some (mkActiveSound (Wav_load Wav_new "missing.wav" 2) "missing.wav" [] 11);
     None;
     Some (mkActiveSound Wav_new "" [21%Z] 0)]
    true [call_init; call_load "missing.wav"; call_setText "hi"; call_play_speech].

(** ** [Player::getErrorString] *)

Section ErrorStrings.
(** the enumerators of [PlayerErrors] the switch names, from enums.h *)
Variables noError invalidParameter fileNotFound fileLoadFailed dllNotFound
  outOfMemory notImplemented backendNotInited unknownError : Z.

(** The switch, case by case in the order of the source (its labels are
    distinct constants, so the order of the tests does not matter). *)
Definition getErrorString (aErrorCode : Z) : string :=
  if (aErrorCode =? noError)%Z then "No error"
  else if (aErrorCode =? invalidParameter)%Z then "Some parameter is invalid"
  else if (aErrorCode =? fileNotFound)%Z then "File not found"
  else if (aErrorCode =? fileLoadFailed)%Z then "File found, but could not be loaded"
  else if (aErrorCode =? dllNotFound)%Z then "DLL not found, or wrong DLL"
  else if (aErrorCode =? outOfMemory)%Z then "Out of memory"
  else if (aErrorCode =? notImplemented)%Z then "Feature not implemented"
  else if (aErrorCode =? backendNotInited)%Z then "Player not yet initialized"
  else if (aErrorCode =? unknownError)%Z then "Unknown error"
  else "Other error".
End ErrorStrings.

(** ** What the shifts of [remove_if] leave in a slot of [sounds] *)

(** a sound with hash [k] is not moved; any other sound is moved away and
    its slot is left null *)
Definition left_in_slot (k : Z) (b : ActiveSound) : option ActiveSound :=
  if decide (soundHash b = k) then Some b else None.

(** ** What one call can do to [sounds] *)

Section Steps.
Variable std_hash : string → Z.

Inductive sounds_step : list (option ActiveSound) → list (option ActiveSound) → Prop :=
| step_same v : sounds_step v v
| step_cleared v : sounds_step v []
| step_loaded (l : list ActiveSound) (f : string) (w : Wav)
    (tail : list (option ActiveSound)) :
    Forall (λ b, soundHash b ≠ newHash_of std_hash f) l →
    tail = [] ∨ tail = [None] →
    sounds_step (Some <$> l)
      ((Some <$> l) ++ Some (mkActiveSound w f [] (newHash_of std_hash f)) :: tail)
| step_spoken v (hl : list Z) (tail : list (option ActiveSound)) :
    tail = [] ∨ tail = [None] →
    sounds_step v (v ++ Some (mkActiveSound Wav_new "" hl 0) :: tail)
| step_updated v (i : nat) (a : ActiveSound) (w : Wav) (hl : list Z) :
    v !! i = Some (Some a) →
    sounds_step v
      (<[i := Some (mkActiveSound w (completeFileName a) hl (soundHash a))]> v)
| step_unloaded (pre : list ActiveSound) (a : ActiveSound)
    (post : list ActiveSound) (k : Z) :
    Forall (λ b, soundHash b ≠ k) pre → soundHash a = k →
    sounds_step ((Some <$> pre) ++ Some a :: (Some <$> post))
      ((Some <$> pre) ++ (Some <$> filter (λ b, soundHash b ≠ k) post)
         ++ drop (length (filter (λ b, soundHash b ≠ k) post))
              (left_in_slot k <$> post)).

(** a registered sound carries the hash of its file name, or it is a
    spoken text: no file name, hash 0 *)
Definition hash_of_name (a : ActiveSound) : Prop :=
  soundHash a = newHash_of std_hash (completeFileName a) ∨
  (completeFileName a = ""%string ∧ soundHash a = 0%Z).
End Steps.

(** ** Facts about the algorithms *)

Section AlgorithmFacts.
Context {A : Type}.
Variable pred : A → outcome bool.
Variable moved : A → A.

Lemma find_if_skip (l1 l2 : list A) :
  (∀ x, x ∈ l1 → pred x = Ok false) →
  find_if pred (l1 ++ l2) = (i ← find_if pred l2; Ok (length l1 + i)).
Proof.
  induction l1 as [|x l1 IH]; intros Hl1; simpl.
  - by destruct (find_if pred l2).
  - rewrite (Hl1 x) by left. cbn.
    rewrite IH by (intros y Hy; apply Hl1; by right).
    by destruct (find_if pred l2).
Qed.

Lemma find_if_first (l1 l2 : list A) (x : A) :
  (∀ y, y ∈ l1 → pred y = Ok false) → pred x = Ok true →
  find_if pred (l1 ++ x :: l2) = Ok (length l1).
Proof.
  intros Hl1 Hx. rewrite find_if_skip by done. cbn. rewrite Hx. cbn.
  f_equal. lia.
Qed.

Lemma find_if_none (l : list A) :
  (∀ y, y ∈ l → pred y = Ok false) → find_if pred l = Ok (length l).
Proof.
  intros Hl. rewrite <- (app_nil_r l) at 1. rewrite find_if_skip by done.
  cbn. f_equal. lia.
Qed.

(** While the loop of [remove_if] walks over elements that are all kept,
    it shifts each of them one place down; the place after them is left
    with a moved-from value. *)
Lemma remove_if_loop_shift (rest l1 : list A) (junk : A) :
  (∀ y, y ∈ rest → pred y = Ok false) →
  ∃ junk',
    remove_if_loop pred moved (length rest) (S (length l1)) (length l1)
      (l1 ++ junk :: rest)
    = Ok (l1 ++ rest ++ [junk'], length l1 + length rest).
Proof.
  revert l1 junk. induction rest as [|y rest IH]; intros l1 junk Hrest.
  - exists junk. cbn. do 2 f_equal. lia.
  - cbn [length remove_if_loop].
    replace ((l1 ++ junk :: y :: rest) !! S (length l1)) with (Some y); cycle 1.
    { symmetry. rewrite (lookup_app_r l1) by lia.
      by replace (S (length l1) - length l1) with 1 by lia. }
    rewrite (Hrest y) by left. cbn.
    destruct (IH (l1 ++ [y]) (moved y)) as [junk' Hloop].
    { intros z Hz. apply Hrest. by right. }
    exists junk'.
    rewrite length_app in Hloop. cbn [length] in Hloop.
    replace (length l1 + 1) with (S (length l1)) in Hloop by lia.
    replace (<[S (length l1):=moved y]> (<[length l1:=y]> (l1 ++ junk :: y :: rest)))
      with ((l1 ++ [y]) ++ moved y :: rest); cycle 1.
    { rewrite insert_app_r_alt by lia.
      replace (length l1 - length l1) with 0 by lia. cbn.
      rewrite insert_app_r_alt by lia.
      replace (S (length l1) - length l1) with 1 by lia. cbn.
      by rewrite <- app_assoc. }
    rewrite Hloop. rewrite <- app_assoc. cbn. do 2 f_equal. lia.
Qed.

(** [v.erase(std::remove_if(...))] on a vector with exactly one match
    removes that element and keeps the others in order. *)
Lemma erase_remove_if_unique (l1 l2 : list A) (x : A) :
  (∀ y, y ∈ l1 → pred y = Ok false) →
  (∀ y, y ∈ l2 → pred y = Ok false) →
  pred x = Ok true →
  erase_remove_if pred moved (l1 ++ x :: l2) = Ok (l1 ++ l2).
Proof.
  intros Hl1 Hl2 Hx. unfold erase_remove_if, remove_if.
  rewrite find_if_first by done. cbn.
  rewrite length_app. cbn [length].
  destruct (decide (length l1 < length l1 + S (length l2))) as [_|?]; [|lia].
  replace (length l1 + S (length l2) - S (length l1)) with (length l2) by lia.
  destruct (remove_if_loop_shift l2 l1 x Hl2) as [junk' ->]. cbn.
  unfold erase. rewrite !length_app. cbn [length].
  destruct (decide (length l1 + length l2 < length l1 + (length l2 + 1)))
    as [_|?]; [|lia].
  f_equal. rewrite app_assoc.
  replace (length l1 + length l2) with (length (l1 ++ l2))
    by (rewrite length_app; lia).
  rewrite delete_middle. by rewrite app_nil_r.
Qed.
(** [find_if] answers when the predicate does on every element, and
    answers [end()] only when no element matches *)
Lemma find_if_defined (v : list A) :
  (∀ x, x ∈ v → ∃ b, pred x = Ok b) →
  ∃ n, find_if pred v = Ok n ∧ n ≤ length v ∧
    (n = length v → ∀ x, x ∈ v → pred x = Ok false).
Proof.
  induction v as [|x v IH]; intros Hv.
  - exists 0. repeat split; [done|]. by intros _ x ?%elem_of_nil.
  - destruct (Hv x) as [[|] Hx]; [left| |]; cbn; rewrite Hx; cbn.
    + exists 0. repeat split; [lia|done].
    + destruct IH as (n & -> & Hn & Hend); [intros y Hy; apply Hv; by right|].
      exists (S n). cbn. repeat split; [lia|].
      intros [= ->] y [->|Hy]%elem_of_cons; [done|by apply Hend].
Qed.

(** The loop of [remove_if] only reads elements it has not written: it
    runs to its end when the predicate answers on the elements still to
    visit, keeps the length and returns a position inside the vector. *)
Lemma remove_if_loop_defined (n i first : nat) (v : list A) :
  (∀ j x, i ≤ j → v !! j = Some x → ∃ b, pred x = Ok b) →
  i + n = length v → first < i →
  ∃ v' first', remove_if_loop pred moved n i first v = Ok (v', first') ∧
    length v' = length v ∧ first' < length v.
Proof.
  revert i first v. induction n as [|n IH]; intros i first v Hv Hlen Hfirst.
  - exists v, first. cbn. repeat split; lia.
  - destruct (lookup_lt_is_Some_2 v i) as [x Hx]; [lia|].
    cbn. rewrite Hx. destruct (Hv i x) as [[|] Hb]; [done..| |]; rewrite Hb; cbn.
    + apply IH; [|lia..]. intros j y Hj. apply Hv. lia.
    + destruct (IH (S i) (S first) (<[i:=moved x]> (<[first:=x]> v)))
        as (v' & first' & -> & Hlen' & Hfirst').
      * intros j y Hj. rewrite !list_lookup_insert_ne by lia. apply Hv. lia.
      * rewrite !length_insert. lia.
      * lia.
      * rewrite !length_insert in Hlen', Hfirst'. by exists v', first'.
Qed.

(** [v.erase(std::remove_if(...))] is defined when the predicate answers on
    every element and some element matches; the vector gets one shorter. *)
Lemma erase_remove_if_defined (v : list A) :
  (∀ x, x ∈ v → ∃ b, pred x = Ok b) →
  (∃ x, x ∈ v ∧ pred x = Ok true) →
  ∃ v', erase_remove_if pred moved v = Ok v' ∧ S (length v') = length v.
Proof.
  intros Hv (x & Hx & Hmatch). unfold erase_remove_if, remove_if.
  destruct (find_if_defined v Hv) as (n & -> & Hn & Hend). cbn.
  destruct (decide (n < length v)) as [Hlt|Hge].
  - assert (∀ j y, S n ≤ j → v !! j = Some y → ∃ b, pred y = Ok b) as Hrest.
    { intros j y _ Hj. apply Hv. apply list_elem_of_lookup. by exists j. }
    destruct (remove_if_loop_defined (length v - S n) (S n) n v Hrest)
      as (v' & first' & -> & Hlen & Hfirst); [lia..|].
    cbn. unfold erase. rewrite Hlen.
    destruct (decide (first' < length v)) as [_|?]; [|lia].
    eexists. split; [done|]. rewrite length_delete; [lia|].
    apply lookup_lt_is_Some_2. lia.
  - assert (n = length v) as Heq by lia.
    specialize (Hend Heq x Hx). congruence.
Qed.
End AlgorithmFacts.

(** ** Facts about the two lookups *)

Lemma no_null_slot_assets (v : list (option ActiveSound)) :
  None ∉ v → ∃ l : list ActiveSound, v = Some <$> l.
Proof.
  induction v as [|[a|] v IH]; intros Hv.
  - by exists [].
  - destruct IH as [l ->]; [intros ?; apply Hv; by right|]. by exists (a :: l).
  - exfalso. apply Hv. left.
Qed.

Lemma assets_no_null_slot (l : list ActiveSound) :
  None ∉ (Some <$> l : list (option ActiveSound)).
Proof. intros (a & ? & _)%list_elem_of_fmap. done. Qed.

Lemma hash_is_other (k : Z) (l : list ActiveSound) :
  Forall (λ b, soundHash b ≠ k) l →
  ∀ x, x ∈ (Some <$> l : list (option ActiveSound)) → hash_is k x = Ok false.
Proof.
  intros Hl x (b & -> & Hb)%list_elem_of_fmap. cbn.
  rewrite Forall_forall in Hl. specialize (Hl b Hb).
  by destruct (Z.eqb_spec (soundHash b) k).
Qed.

Lemma hash_is_same (k : Z) (a : ActiveSound) :
  soundHash a = k → hash_is k (Some a) = Ok true.
Proof. intros <-. cbn. by rewrite Z.eqb_refl. Qed.

(** [find_if] stops at the first sound with the hash *)
Lemma find_if_hash_found (k : Z) (pre : list ActiveSound) (a : ActiveSound)
    (post : list (option ActiveSound)) :
  Forall (λ b, soundHash b ≠ k) pre → soundHash a = k →
  find_if (hash_is k) ((Some <$> pre) ++ Some a :: post) = Ok (length pre).
Proof.
  intros Hpre Ha.
  rewrite (find_if_first _ _ _ _ (hash_is_other k pre Hpre) (hash_is_same k a Ha)).
  by rewrite length_fmap.
Qed.

(** [find_if] returns [end()] when no sound has the hash *)
Lemma find_if_hash_missing (k : Z) (l : list ActiveSound) :
  Forall (λ b, soundHash b ≠ k) l →
  find_if (hash_is k) (Some <$> l) = Ok (length (Some <$> l)).
Proof. intros Hl. apply find_if_none, hash_is_other, Hl. Qed.

(** what a returned position tells about the vector *)
Lemma find_if_hash_inv (k : Z) (v : list (option ActiveSound)) (n : nat) :
  find_if (hash_is k) v = Ok n →
  (n = length v ∧ ∃ l, v = Some <$> l ∧ Forall (λ b, soundHash b ≠ k) l) ∨
  (∃ pre a post, v = (Some <$> pre) ++ Some a :: post ∧ n = length pre ∧
     Forall (λ b, soundHash b ≠ k) pre ∧ soundHash a = k).
Proof.
  revert n. induction v as [|[a|] v IH]; intros n Hn.
  - left. cbn in Hn. injection Hn as <-. split; [done|]. by exists [].
  - cbn in Hn. destruct (Z.eqb_spec (soundHash a) k) as [Heq|Hne].
    + right. injection Hn as <-. by exists [], a, v.
    + cbn in Hn. destruct (find_if (hash_is k) v) as [m|] eqn:Hm; [|done].
      cbn in Hn. injection Hn as <-.
      destruct (IH m eq_refl) as [[-> (l & -> & Hl)]|(pre & b & post & -> & -> & Hpre & Hb)].
      * left. split; [done|]. exists (a :: l). split; [done|]. by constructor.
      * right. exists (a :: pre), b, post. repeat split; [|done]. by constructor.
  - done.
Qed.

Lemma find_in_handles_found (h : Z) (l1 l2 : list Z) (index : nat) :
  h ∉ l1 → find_in_handles h (l1 ++ h :: l2) index = Some (index + length l1).
Proof.
  revert index. induction l1 as [|x l1 IH]; intros index Hl1; cbn.
  - rewrite Z.eqb_refl. f_equal. lia.
  - destruct (Z.eqb_spec x h) as [->|_]; [by exfalso; apply Hl1; left|].
    rewrite IH by (intros ?; apply Hl1; by right). f_equal. lia.
Qed.

Lemma find_in_handles_missing (h : Z) (l : list Z) (index : nat) :
  h ∉ l → find_in_handles h l index = None.
Proof.
  revert index. induction l as [|x l IH]; intros index Hl; cbn; [done|].
  destruct (Z.eqb_spec x h) as [->|_]; [by exfalso; apply Hl; left|].
  apply IH. intros ?. apply Hl. by right.
Qed.

Lemma find_in_handles_inv (h : Z) (l : list Z) (index : nat) :
  match find_in_handles h l index with
  | Some n => ∃ l1 l2, l = l1 ++ h :: l2 ∧ (h ∉ l1) ∧ n = index + length l1
  | None => h ∉ l
  end.
Proof.
  revert index. induction l as [|x l IH]; intros index; cbn.
  - by intros ?%elem_of_nil.
  - destruct (Z.eqb_spec x h) as [->|Hne].
    + exists [], l. repeat split; [by intros ?%elem_of_nil|cbn; lia].
    + specialize (IH (S index)). destruct (find_in_handles h l (S index)) as [n|].
      * destruct IH as (l1 & l2 & -> & Hl1 & ->). exists (x :: l1), l2.
        repeat split; [|cbn; lia].
        intros [?|?]%elem_of_cons; [by apply Hne|by apply Hl1].
      * intros [?|?]%elem_of_cons; [by apply Hne|by apply IH].
Qed.

(** [findByHandle] stops at the first sound that lists the handle, at the
    first place of the handle in its list *)
Lemma findByHandle_from_found (h : Z) (pre : list ActiveSound) (a : ActiveSound)
    (post : list (option ActiveSound)) (l1 l2 : list Z) (i : nat) :
  Forall (λ b, h ∉ handle b) pre → handle a = l1 ++ h :: l2 → h ∉ l1 →
  findByHandle_from h ((Some <$> pre) ++ Some a :: post) i
  = Ok (Some (i + length pre, length l1)).
Proof.
  intros Hpre Ha Hl1. revert i. induction Hpre as [|b pre Hb _ IH]; intros i; cbn.
  - rewrite Ha, find_in_handles_found by done. do 3 f_equal. lia.
  - rewrite find_in_handles_missing by done. rewrite IH. do 3 f_equal. lia.
Qed.

(** [findByHandle] returns [nullptr] when no sound lists the handle *)
Lemma findByHandle_from_missing (h : Z) (l : list ActiveSound) (i : nat) :
  Forall (λ b, h ∉ handle b) l → findByHandle_from h (Some <$> l) i = Ok None.
Proof.
  intros Hl. revert i. induction Hl as [|b l Hb _ IH]; intros i; cbn; [done|].
  by rewrite find_in_handles_missing.
Qed.

(** what the answer of [findByHandle] tells about the vector *)
Lemma findByHandle_from_inv (h : Z) (l : list ActiveSound) (i : nat) :
  (findByHandle_from h (Some <$> l) i = Ok None ∧ Forall (λ b, h ∉ handle b) l) ∨
  (∃ pre a post l1 l2, l = pre ++ a :: post ∧ Forall (λ b, h ∉ handle b) pre ∧
     handle a = l1 ++ h :: l2 ∧ (h ∉ l1) ∧
     findByHandle_from h (Some <$> l) i = Ok (Some (i + length pre, length l1))).
Proof.
  revert i. induction l as [|b l IH]; intros i.
  - left. by split.
  - pose proof (find_in_handles_inv h (handle b) 0) as Hb. cbn.
    destruct (find_in_handles h (handle b) 0) as [n|].
    + right. destruct Hb as (l1 & l2 & Hb & Hl1 & ->).
      exists [], b, l, l1, l2. repeat split; try done. cbn. do 3 f_equal. lia.
    + destruct (IH (S i)) as [[-> Hl]|(pre & a & post & l1 & l2 & -> & Hpre & Ha & Hl1 & ->)].
      * left. split; [done|]. by constructor.
      * right. exists (b :: pre), a, post, l1, l2.
        repeat split; try done; [by constructor|]. cbn. do 3 f_equal. lia.
Qed.

Lemma not_registered_all (k : Z) (p : Player) (l : list ActiveSound) :
  sounds p = Some <$> l → ¬ registered k p → Forall (λ b, soundHash b ≠ k) l.
Proof.
  intros Hl Hk. apply Forall_forall. intros b Hb Hbk. apply Hk. exists b.
  split; [|done]. rewrite Hl. by apply list_elem_of_fmap_2.
Qed.

Lemma not_listed_all (h : Z) (p : Player) (l : list ActiveSound) :
  sounds p = Some <$> l → ¬ listed h p → Forall (λ b, h ∉ handle b) l.
Proof.
  intros Hl Hh. apply Forall_forall. intros b Hb Hbh. apply Hh. exists b.
  split; [|done]. rewrite Hl. by apply list_elem_of_fmap_2.
Qed.

Lemma all_not_listed (h : Z) (p : Player) (l : list ActiveSound) :
  sounds p = Some <$> l → Forall (λ b, h ∉ handle b) l → ¬ listed h p.
Proof.
  intros Hl Hall (a & Ha & Hh). rewrite Hl in Ha.
  apply list_elem_of_fmap in Ha as (b & [= ->] & Hb).
  rewrite Forall_forall in Hall. by apply (Hall b).
Qed.

Lemma lookup_found_slot (pre : list ActiveSound) (a : ActiveSound)
    (post : list (option ActiveSound)) :
  ((Some <$> pre) ++ Some a :: post) !! length pre = Some (Some a).
Proof.
  rewrite <- (length_fmap Some pre). by apply list_lookup_middle.
Qed.

Lemma insert_found_slot (pre : list ActiveSound) (a : ActiveSound)
    (post : list (option ActiveSound)) (x : option ActiveSound) :
  <[length pre := x]> ((Some <$> pre) ++ Some a :: post) = (Some <$> pre) ++ x :: post.
Proof.
  rewrite insert_app_r_alt by (rewrite length_fmap; lia).
  rewrite length_fmap. by replace (length pre - length pre) with 0 by lia.
Qed.

Lemma find_if_hash_registered (k : Z) (l : list ActiveSound) :
  (∃ a, a ∈ l ∧ soundHash a = k) →
  ∃ n, find_if (hash_is k) (Some <$> l) = Ok n ∧ n < length l.
Proof.
  induction l as [|b l IH]; intros (a & Ha & Hk).
  - by apply elem_of_nil in Ha.
  - cbn. destruct (Z.eqb_spec (soundHash b) k) as [_|Hne].
    + exists 0. split; [done|]. cbn. lia.
    + apply elem_of_cons in Ha as [->|Ha]; [done|].
      destruct IH as (n & -> & Hn); [by exists a|].
      exists (S n). split; [done|]. cbn. lia.
Qed.

Lemma omap_id_assets (l : list ActiveSound) : omap id (Some <$> l) = l.
Proof. induction l as [|a l IH]; [done|]. cbn. by rewrite IH. Qed.

Lemma with_hash_assets (k : Z) (p : Player) (l : list ActiveSound) :
  sounds p = Some <$> l → with_hash k p = filter (λ a, soundHash a = k) l.
Proof. unfold with_hash. intros ->. by rewrite omap_id_assets. Qed.

(** a handle listed by a sound of a null-free prefix resolves *)
Lemma findByHandle_from_listed (h : Z) (l : list ActiveSound)
    (post : list (option ActiveSound)) (j : nat) :
  (∃ b, b ∈ l ∧ h ∈ handle b) →
  ∃ i n b, findByHandle_from h ((Some <$> l) ++ post) j = Ok (Some (j + i, n)) ∧
    ((Some <$> l) ++ post) !! i = Some (Some b) ∧ handle b !! n = Some h.
Proof.
  revert j. induction l as [|b0 l IH]; intros j (b & Hb & Hh).
  - by apply elem_of_nil in Hb.
  - pose proof (find_in_handles_inv h (handle b0) 0) as Hb0. cbn.
    destruct (find_in_handles h (handle b0) 0) as [n|].
    + destruct Hb0 as (l1 & l2 & Hb0 & _ & ->). exists 0, (length l1), b0.
      split; [do 3 f_equal; lia|]. split; [done|].
      rewrite Hb0. by apply list_lookup_middle.
    + apply elem_of_cons in Hb as [->|Hb]; [done|].
      destruct (IH (S j)) as (i & n & c & -> & Hi & Hn); [by exists b|].
      exists (S i), n, c. split; [do 3 f_equal; lia|]. by split.
Qed.

(** ** Null slots and undefined behaviour *)

Lemma find_if_hash_defined (k : Z) (l : list ActiveSound) :
  ∃ n, find_if (hash_is k) (Some <$> l) = Ok n ∧
    (n = length (Some <$> l : list (option ActiveSound)) ∨
     n ≠ length (Some <$> l : list (option ActiveSound)) ∧
     ∃ a, (Some <$> l : list (option ActiveSound)) !! n = Some (Some a) ∧
          soundHash a = k).
Proof.
  destruct (find_if_defined (hash_is k) (Some <$> l)) as (n & Hn & _ & _).
  { intros x (a & -> & _)%list_elem_of_fmap. by eexists. }
  exists n. split; [done|].
  destruct (find_if_hash_inv k _ n Hn)
    as [[-> _]|(pre & a & post & Hl & -> & _ & Ha)]; [by left|right].
  split.
  - rewrite Hl, length_app, length_fmap. cbn. lia.
  - exists a. split; [|done]. rewrite Hl. apply lookup_found_slot.
Qed.

Lemma insert_no_null_slot (v : list (option ActiveSound)) (i : nat)
    (a : ActiveSound) :
  None ∉ v → None ∉ <[i := Some a]> v.
Proof.
  intros Hv (j & Hj)%list_elem_of_lookup.
  apply list_lookup_insert_Some in Hj as [(_ & ? & _)|(_ & Hj)]; [done|].
  apply Hv, list_elem_of_lookup. by exists j.
Qed.

Lemma app_no_null_slot (v : list (option ActiveSound)) (a : ActiveSound) :
  None ∉ v → None ∉ v ++ [Some a].
Proof.
  intros Hv [?|Ha]%elem_of_app; [done|]. by apply list_elem_of_singleton in Ha.
Qed.

Lemma debug_assets (l : list ActiveSound) :
  forallb (λ f : option ActiveSound, bool_decide (is_Some f)) (Some <$> l) = true.
Proof. induction l as [|a l IH]; [done|]. cbn. by rewrite IH. Qed.

(** the sound and the index [findByHandle] returns exist *)
Lemma findByHandle_defined (h : Z) (p : Player) :
  no_null_slot p →
  findByHandle h p = Ok None ∨
  ∃ i handleId a, findByHandle h p = Ok (Some (i, handleId)) ∧
    sounds p !! i = Some (Some a) ∧ handle a !! handleId = Some h.
Proof.
  intros [l Hl]%no_null_slot_assets. unfold findByHandle. rewrite Hl.
  destruct (findByHandle_from_inv h l 0)
    as [[-> _]|(pre & a & post & l1 & l2 & -> & _ & Ha & _ & ->)]; [by left|right].
  exists (length pre), (length l1), a. split; [done|].
  rewrite fmap_app, fmap_cons. split; [apply lookup_found_slot|].
  rewrite Ha. by apply list_lookup_middle.
Qed.

(** A scan that meets a null slot before it finds what it looks for
    dereferences the null pointer. *)
Lemma scan_reaches_null_slot (k h : Z) (pre : list ActiveSound)
    (post : list (option ActiveSound)) :
  (Forall (λ b, soundHash b ≠ k) pre →
     find_if (hash_is k) ((Some <$> pre) ++ None :: post) = UB) ∧
  (Forall (λ b, h ∉ handle b) pre →
     findByHandle_from h ((Some <$> pre) ++ None :: post) 0 = UB).
Proof.
  split.
  - intros Hpre. rewrite (find_if_skip _ _ _ (hash_is_other k pre Hpre)). done.
  - intros Hpre. generalize 0.
    induction Hpre as [|b pre Hb _ IH]; intros i; cbn; [done|].
    by rewrite find_in_handles_missing.
Qed.

Section Safety.
Variable std_hash : string → Z.
Variable SO_NO_ERROR : Z.
Variables backendNotInited fileAlreadyLoaded : Z.

(** X17 — On a registry whose slots all hold a sound no call runs into
    undefined behaviour: every operation returns, whatever its arguments
    and whatever the engine answers. *)
Theorem run_defined (c : Call) (p : Player) :
  no_null_slot p →
  ∃ r p', run std_hash SO_NO_ERROR backendNotInited fileAlreadyLoaded c p
          = Ok (r, p').
Proof.
  intros Hp. pose proof Hp as [l Hl]%no_null_slot_assets.
  destruct p as [v b0 t]. cbn in Hl. subst v.
  assert (∀ k, ∃ n, find_if (hash_is k) (Some <$> l) = Ok n ∧
            (n = length (Some <$> l : list (option ActiveSound)) ∨
             n ≠ length (Some <$> l : list (option ActiveSound)) ∧
             ∃ a, (Some <$> l : list (option ActiveSound)) !! n = Some (Some a) ∧
                  soundHash a = k)) as Hfind
    by (intros k; apply find_if_hash_defined).
  assert (∀ h, findByHandle h (mkPlayer (Some <$> l) b0 t) = Ok None ∨
            ∃ i handleId a,
              findByHandle h (mkPlayer (Some <$> l) b0 t) = Ok (Some (i, handleId)) ∧
              (Some <$> l : list (option ActiveSound)) !! i = Some (Some a) ∧
              handle a !! handleId = Some h) as Hres
    by (intros h; apply (findByHandle_defined h _ Hp)).
  destruct c as [result| |f hash result|h b|h b|k vol pan paused nh|h|k|h b|text h0 result ph|k len|h tm result|h pos|k x y z vx vy vz vol paused bus nh|h fid dl dc fl| | | |m];
    unfold run.
  - destruct (init _ _ _ _); by eexists _, _.
  - by eexists _, _.
  - unfold loadFile. cbn [sounds mInited]. destruct (negb b0); [by eexists _, _|].
    destruct (Hfind (newHash_of std_hash f)) as (n & -> & _).
    unfold mbind, outcome_bind. cbv beta iota.
    destruct (decide _); by eexists _, _.
  - unfold pauseSwitch.
    destruct (Hres h) as [->|(i & n & a & -> & Hi & Hn)];
      unfold mbind, outcome_bind; cbv beta iota; [by eexists _, _|].
    unfold handle_at. cbn [sounds]. rewrite Hi, Hn. by eexists _, _.
  - unfold getPause.
    destruct (Hres h) as [->|(i & n & a & -> & Hi & Hn)];
      unfold mbind, outcome_bind; cbv beta iota; [by eexists _, _|].
    unfold handle_at. cbn [sounds]. rewrite Hi, Hn. by eexists _, _.
  - unfold play. cbn [sounds].
    destruct (Hfind k) as (n & -> & [->|(Hn & a & Ha & _)]);
      unfold mbind, outcome_bind; cbv beta iota; destruct (decide _); try done;
      [by eexists _, _|]. rewrite Ha. by eexists _, _.
  - unfold stop.
    destruct (Hres h) as [->|(i & n & a & -> & Hi & Hn)];
      unfold mbind, outcome_bind; cbv beta iota; [by eexists _, _|].
    cbn [sounds]. rewrite Hi.
    destruct (erase_remove_if_defined (handle_is h) id (handle a))
      as (v' & -> & _); [by eexists| |by eexists _, _].
    exists h. split; [apply list_elem_of_lookup; by exists n|].
    unfold handle_is. by rewrite Z.eqb_refl.
  - unfold stopSound. cbn [sounds].
    destruct (Hfind k) as (n & -> & [->|(Hn & a & Ha & Hk)]);
      unfold mbind, outcome_bind; cbv beta iota; destruct (decide _); try done;
      [by eexists _, _|]. rewrite Ha.
    destruct (erase_remove_if_defined (hash_is k) moved_ptr (Some <$> l))
      as (v' & Hv' & _).
    + intros x0 (b & -> & _)%list_elem_of_fmap. by eexists.
    + exists (Some a). split; [apply list_elem_of_lookup; by exists n|].
      by apply hash_is_same.
    + unfold set_sounds, engine. cbn [sounds]. rewrite Hv'. by eexists _, _.
  - by eexists _, _.
  - destruct (textToSpeech _ _ _ _ _ _ _) as [[e out] p']. by eexists _, _.
  - unfold getLength. cbn [sounds].
    destruct (Hfind k) as (n & -> & [->|(Hn & a & Ha & _)]);
      unfold mbind, outcome_bind; cbv beta iota; destruct (decide _); try done;
      [by eexists _, _|]. rewrite Ha. by eexists _, _.
  - destruct (seek _ _ _ _ _); by eexists _, _.
  - by eexists _, _.
  - unfold play3d. cbn [sounds].
    destruct (Hfind k) as (n & -> & [->|(Hn & a & Ha & _)]);
      unfold mbind, outcome_bind; cbv beta iota; destruct (decide _); try done;
      [by eexists _, _|]. rewrite Ha. by eexists _, _.
  - unfold setEchoFilter.
    destruct (Hres h) as [->|(i & n & a & -> & Hi & Hn)];
      unfold mbind, outcome_bind; cbv beta iota; [by eexists _, _|].
    cbn [sounds]. rewrite Hi. by eexists _, _.
  - by eexists _, _.
  - by eexists _, _.
  - unfold debug. cbn [sounds]. rewrite debug_assets. by eexists _, _.
  - by eexists _, _.
Qed.

(** X18 — A call keeps every slot of [sounds] filled unless the engine
    refuses the file of [loadFile] or the text of [textToSpeech], or
    [stopSound] is called for a hash that several sounds share. *)
Theorem no_null_slot_kept (c : Call) (p : Player) (r : Returned) (p' : Player) :
  no_null_slot p →
  run std_hash SO_NO_ERROR backendNotInited fileAlreadyLoaded c p = Ok (r, p') →
  engine_refuses SO_NO_ERROR c = false →
  (∀ k, c = Op_stopSound k → length (with_hash k p) ≤ 1) →
  no_null_slot p'.
Proof.
  intros Hp Hrun Hc Hk. pose proof Hp as [l Hl]%no_null_slot_assets.
  unfold no_null_slot in *. destruct p as [v i t]. cbn in Hl, Hp. revert Hrun.
  destruct c as [result| |f hash result|h b|h b|k vol pan paused nh|h|k|h b|text h0 result ph|k len|h tm result|h pos|k x y z vx vy vz vol paused bus nh|h fid dl dc fl| | | |m]; cbn in Hc; unfold run.
  - unfold init, dispose, engine. cbn. intros Hrun; repeat case_match; simplify_eq/=; try done.
    all: by intros ?%elem_of_nil.
  - intros [= _ <-]. cbn. by intros ?%elem_of_nil.
  - unfold loadFile, set_sounds, engine. cbn. unfold mbind, outcome_bind.
    intros Hrun; repeat case_match; simplify_eq/=; try done.
    by apply app_no_null_slot.
  - unfold pauseSwitch, handle_at, findByHandle, engine. cbn. unfold mbind, outcome_bind.
    intros Hrun; repeat case_match; simplify_eq/=; done.
  - unfold getPause, handle_at, findByHandle, engine. cbn. unfold mbind, outcome_bind.
    intros Hrun; repeat case_match; simplify_eq/=; done.
  - unfold play, set_sounds, engine. cbn. unfold mbind, outcome_bind.
    intros Hrun; repeat case_match; simplify_eq/=; try done.
    by apply insert_no_null_slot.
  - unfold stop, findByHandle, set_sounds, engine. cbn. unfold mbind, outcome_bind.
    intros Hrun; repeat case_match; simplify_eq/=; try done.
    by apply insert_no_null_slot.
  - specialize (Hk k eq_refl). unfold stopSound.
    cbn [sounds]. destruct (find_if (hash_is k) v) as [n|] eqn:Hn;
      unfold mbind, outcome_bind; cbv beta iota; [|done].
    destruct (decide _) as [->|Hlen]; [by intros [= _ <-]|].
    destruct (find_if_hash_inv _ _ _ Hn)
      as [[-> _]|(pre & a & post & -> & -> & Hpre & Ha)]; [done|].
    rewrite lookup_found_slot.
    destruct (no_null_slot_assets post) as [post' ->].
    { intros Hnull. apply Hp, elem_of_app. right. by right. }
    assert (Forall (λ b, soundHash b ≠ k) post') as Hpost.
    { rewrite (with_hash_assets _ _ (pre ++ a :: post')) in Hk
        by (cbn; by rewrite fmap_app).
      rewrite filter_app, filter_cons_True, length_app in Hk by done.
      cbn in Hk. apply Forall_forall. intros b Hb Hbk.
      assert (b ∈ filter (λ a0, soundHash a0 = k) post') as Hin
        by (by apply list_elem_of_filter).
      destruct (filter _ post'); [by apply elem_of_nil in Hin|cbn in Hk; lia]. }
    unfold set_sounds, engine. cbn [sounds mInited soloud].
    rewrite (erase_remove_if_unique (hash_is k) moved_ptr _ _ (Some a)
               (hash_is_other _ pre Hpre) (hash_is_other _ post' Hpost)
               (hash_is_same _ a Ha)).
    cbn. intros [= _ <-]. cbn. rewrite <- fmap_app. apply assets_no_null_slot.
  - intros [= _ <-]. done.
  - unfold textToSpeech, set_sounds, engine. cbn.
    intros Hrun; repeat case_match; simplify_eq/=; try done.
    by apply insert_no_null_slot, app_no_null_slot.
  - unfold getLength, engine. cbn. unfold mbind, outcome_bind.
    intros Hrun; repeat case_match; simplify_eq/=; done.
  - unfold seek, engine. cbn.
    intros Hrun; repeat case_match; simplify_eq/=; done.
  - intros [= _ <-]. done.
  - unfold play3d, set_sounds, engine. cbn. unfold mbind, outcome_bind.
    intros Hrun; repeat case_match; simplify_eq/=; try done.
    by apply insert_no_null_slot.
  - unfold setEchoFilter, findByHandle, set_sounds, engine. cbn.
    unfold mbind, outcome_bind.
    intros Hrun; repeat case_match; simplify_eq/=; try done.
    by apply insert_no_null_slot.
  - intros [= _ <-]. done.
  - intros [= _ <-]. done.
  - unfold debug. cbn. unfold mbind, outcome_bind.
    intros Hrun; repeat case_match; simplify_eq/=; done.
  - intros [= _ <-]. done.
Qed.
End Safety.

(** ** What holds in every state the player reaches *)

Section Reachable.
Variable std_hash : string → Z.
Variable SO_NO_ERROR : Z.
Variables backendNotInited fileAlreadyLoaded : Z.

Lemma run_all_reachable (cs : list Call) (p p' : Player) :
  reachable std_hash SO_NO_ERROR backendNotInited fileAlreadyLoaded p →
  run_all std_hash SO_NO_ERROR backendNotInited fileAlreadyLoaded cs p = Ok p' →
  reachable std_hash SO_NO_ERROR backendNotInited fileAlreadyLoaded p'.
Proof.
  revert p. induction cs as [|c cs IH]; intros p Hp; cbn.
  - by intros [= <-].
  - destruct (run _ _ _ _ c p) as [[r q]|] eqn:Hrun; cbn; [|done].
    apply IH. by eapply reachable_run.
Qed.

(** Sounds are only registered while the player is started: [dispose]
    clears [sounds], [loadFile] and [textToSpeech] return early. *)
Lemma reachable_not_inited_empty (p : Player) :
  reachable std_hash SO_NO_ERROR backendNotInited fileAlreadyLoaded p →
  mInited p = false → sounds p = [].
Proof.
  induction 1 as [|p c r p' _ IH Hrun]; [done|].
  destruct p as [v i t]. cbn in IH. destruct i.
  - clear IH. intros Hinit. revert Hrun.
    destruct c; cbn;
      unfold init, loadFile, pauseSwitch, getPause, play, stop, stopSound,
        textToSpeech, getLength, seek, getPosition, play3d, setLooping,
        setEchoFilter, debug, forwarded, isInited, getSoundsCount,
        findByHandle, handle_at, set_sounds, engine, dispose; cbn;
      unfold mbind, outcome_bind; repeat (case_match; cbn);
      intros; simplify_eq/=; done.
  - rewrite (IH eq_refl) in Hrun. intros Hinit. revert Hrun Hinit.
    destruct c; cbn;
      unfold init, textToSpeech, seek, dispose, forwarded, setLooping,
        getPosition, engine; cbn;
      repeat (case_match; cbn); intros; simplify_eq/=; done.
Qed.
End Reachable.

(** ** Facts about the sample players *)

Ltac elem_cases H :=
  repeat (apply elem_of_cons in H as [H|H]); try (by apply elem_of_nil in H).

Lemma two_sounds_no_null_slot : no_null_slot two_sounds.
Proof. intros H. elem_cases H; discriminate. Qed.

Lemma two_sounds_reachable : reachable length_hash 0 8 9 two_sounds.
Proof.
  apply (run_all_reachable length_hash 0 8 9
           [Op_init 0; Op_loadFile "a.wav" 0 0; Op_loadFile "bb.wav" 0 0;
            Op_play 5 1 0 false 11; Op_play 5 1 0 false 12] Player_new).
  - constructor.
  - reflexivity.
Qed.

(** ** The registry a refused file leaves, and a text spoken after it *)

Lemma loadFile_refused_result (std_hash : string → Z)
    (SO_NO_ERROR backendNotInited fileAlreadyLoaded : Z)
    (f : string) (hash result : Z) (l : list ActiveSound) (p : Player) :
  mInited p = true → sounds p = Some <$> l →
  Forall (λ b, soundHash b ≠ newHash_of std_hash f) l →
  result ≠ SO_NO_ERROR →
  loadFile std_hash SO_NO_ERROR backendNotInited fileAlreadyLoaded f hash result p
  = Ok (result, newHash_of std_hash f,
        mkPlayer
          ((Some <$> (l ++ [mkActiveSound (Wav_load Wav_new f result) f []
                              (newHash_of std_hash f)])) ++ [None])
          true (soloud p ++ [call_load f])).
Proof.
  intros Hi Hv Hl Hres. unfold loadFile, set_sounds, engine.
  cbn [sounds mInited soloud]. rewrite Hi, Hv. cbn [negb].
  rewrite (find_if_hash_missing _ l Hl).
  unfold mbind, outcome_bind. cbv beta iota.
  destruct (decide _) as [Hne|_]; [done|].
  destruct (Z.eqb_spec result SO_NO_ERROR) as [?|_]; [done|].
  cbn [negb sounds mInited soloud]. by rewrite fmap_app.
Qed.

Lemma textToSpeech_accepted_result (SO_NO_ERROR backendNotInited : Z)
    (text : string) (h0 ph : Z) (p : Player) :
  mInited p = true →
  textToSpeech SO_NO_ERROR backendNotInited text h0 SO_NO_ERROR ph p
  = (SO_NO_ERROR, ph,
     mkPlayer (sounds p ++ [Some (mkActiveSound Wav_new "" [ph] 0)]) true
       (soloud p ++ [call_setText text; call_play_speech])).
Proof.
  intros Hi. unfold textToSpeech, set_sounds, engine, set_handle, ActiveSound_new.
  cbn [sounds mInited soloud handle sound completeFileName soundHash].
  rewrite Hi, Z.eqb_refl. cbn [negb]. rewrite length_app. cbn [length].
  replace (length (sounds p) + 1 - 1) with (length (sounds p) + 0) by lia.
  rewrite insert_app_r. cbn. by rewrite <- app_assoc.
Qed.

(** the sounds before the null slot a refused file leaves *)
Lemma refused_prefix (P : ActiveSound → Prop) (l : list ActiveSound)
    (m : ActiveSound) :
  Forall P l → P m → Forall P (l ++ [m]).
Proof. intros Hl Hm. apply Forall_app. split; [done|]. by constructor. Qed.

Lemma registered_in_prefix (k : Z) (pre : list ActiveSound)
    (post : list ActiveSound) (p : Player) :
  sounds p = (Some <$> pre) ++ None :: (Some <$> post) →
  Forall (λ b, soundHash b ≠ k) pre → Forall (λ b, soundHash b ≠ k) post →
  ¬ registered k p.
Proof.
  intros Hv Hpre Hpost (a & Ha & Hk). rewrite Hv in Ha.
  apply elem_of_app in Ha as [Ha|Ha].
  - apply list_elem_of_fmap in Ha as (c & [= <-] & Hc).
    by apply (proj1 (Forall_forall _ _) Hpre) in Hc.
  - apply elem_of_cons in Ha as [?|Ha]; [done|].
    apply list_elem_of_fmap in Ha as (c & [= <-] & Hc).
    by apply (proj1 (Forall_forall _ _) Hpost) in Hc.
Qed.

Lemma listed_in_prefix (h : Z) (pre : list ActiveSound)
    (post : list ActiveSound) (p : Player) :
  sounds p = (Some <$> pre) ++ None :: (Some <$> post) →
  Forall (λ b, h ∉ handle b) pre → Forall (λ b, h ∉ handle b) post →
  ¬ listed h p.
Proof.
  intros Hv Hpre Hpost (a & Ha & Hh). rewrite Hv in Ha.
  apply elem_of_app in Ha as [Ha|Ha].
  - apply list_elem_of_fmap in Ha as (c & [= <-] & Hc).
    by apply (proj1 (Forall_forall _ _) Hpre) in Hc.
  - apply elem_of_cons in Ha as [?|Ha]; [done|].
    apply list_elem_of_fmap in Ha as (c & [= <-] & Hc).
    by apply (proj1 (Forall_forall _ _) Hpost) in Hc.
Qed.

(** ** Loading *)

(** C2 — After a call of [loadFile] that returned [SO_NO_ERROR], a second
    call for the same file returns [fileAlreadyLoaded] and leaves the player
    exactly as the first call left it (no second sound, the first sound
    untouched, the same count), and exactly one registered sound has the
    hash of the file. *)
Theorem loadFile_twice (std_hash : string → Z)
    (SO_NO_ERROR backendNotInited fileAlreadyLoaded : Z)
    (completeFileName : string) (hash hash' r1 r2 h1 : Z) (p p1 : Player) :
  backendNotInited ≠ SO_NO_ERROR → fileAlreadyLoaded ≠ SO_NO_ERROR →
  loadFile std_hash SO_NO_ERROR backendNotInited fileAlreadyLoaded
    completeFileName hash r1 p = Ok (SO_NO_ERROR, h1, p1) →
  loadFile std_hash SO_NO_ERROR backendNotInited fileAlreadyLoaded
    completeFileName hash' r2 p1 = Ok (fileAlreadyLoaded, 0%Z, p1) ∧
  length (with_hash (newHash_of std_hash completeFileName) p1) = 1 ∧
  getSoundsCount p1 = S (getSoundsCount p).
Proof.
  intros Hne1 Hne2. unfold loadFile at 1.
  destruct (mInited p) eqn:Hinit; cbn; [|by intros [= ? _ _]].
  destruct (find_if _ (sounds p)) as [n|] eqn:Hn; cbn; [|done].
  destruct (decide (n ≠ length (sounds p))) as [?|Hend%dec_stable];
    [by intros [= ? _ _]|].
  intros [= -> <- <-]. rewrite Z.eqb_refl. cbn.
  destruct (find_if_hash_inv _ _ _ Hn)
    as [[_ (l & Hl & Hall)]|(pre & a & post & Hl & -> & _)].
  2:{ rewrite Hl, length_app, length_fmap in Hend. cbn in Hend. lia. }
  set (a := mkActiveSound _ _ _ _).
  assert (find_if (hash_is (newHash_of std_hash completeFileName))
            (sounds p ++ [Some a]) = Ok (length l)) as Hfind.
  { rewrite Hl. by apply find_if_hash_found. }
  split; [|split].
  - unfold loadFile, set_sounds, engine. cbn. rewrite Hinit, Hfind. cbn.
    rewrite Hl, length_app, length_fmap. cbn.
    destruct (decide (length l ≠ length l + 1)) as [_|?]; [done|lia].
  - rewrite Hl.
    replace ((Some <$> l) ++ [Some a]) with (Some <$> (l ++ [a]))
      by (by rewrite fmap_app).
    rewrite omap_id_assets, filter_app.
    replace (filter _ l) with (@nil ActiveSound); cycle 1.
    { symmetry. clear -Hall. induction Hall as [|b l Hb _ IH]; [done|].
      by rewrite filter_cons_False. }
    cbn. by destruct (decide _).
  - unfold getSoundsCount, set_sounds, engine. cbn. rewrite length_app. cbn. lia.
Qed.

Lemma loadFile_twice_witness :
  (8 ≠ 0)%Z ∧ (9 ≠ 0)%Z ∧
  loadFile length_hash 0 8 9 "a.wav" 77 0 (mkPlayer [] true [call_init])
  = Ok (0%Z, 5%Z,
        mkPlayer [Some (mkActiveSound (Wav_load Wav_new "a.wav" 0) "a.wav" [] 5)]
          true [call_init; call_load "a.wav"]) ∧
  loadFile length_hash 0 8 9 "a.wav" 78 0
    (mkPlayer [Some (mkActiveSound (Wav_load Wav_new "a.wav" 0) "a.wav" [] 5)]
       true [call_init; call_load "a.wav"])
  = Ok (9%Z, 0%Z,
        mkPlayer [Some (mkActiveSound (Wav_load Wav_new "a.wav" 0) "a.wav" [] 5)]
          true [call_init; call_load "a.wav"]).
Proof.
  split; [lia|]. split; [lia|]. split; [reflexivity|].
  apply (loadFile_twice length_hash 0 8 9 "a.wav" 77 78 0 0 5
           (mkPlayer [] true [call_init])); [lia|lia|reflexivity].
Defined.

(** X22 — In every state the player reaches, with a sound in every slot:
    when [loadFile] is called for a file whose hash a registered sound
    already has, the caller's [hash] is left at zero, not set to the hash of
    that sound, and the result is [fileAlreadyLoaded]; the player is as it
    was. *)
Theorem loadFile_registered_leaves_zero (std_hash : string → Z)
    (SO_NO_ERROR backendNotInited fileAlreadyLoaded : Z)
    (completeFileName : string) (hash result : Z) (p : Player) :
  reachable std_hash SO_NO_ERROR backendNotInited fileAlreadyLoaded p →
  no_null_slot p →
  registered (newHash_of std_hash completeFileName) p →
  loadFile std_hash SO_NO_ERROR backendNotInited fileAlreadyLoaded
    completeFileName hash result p
  = Ok (fileAlreadyLoaded, 0%Z, p).
Proof.
  intros Hreach [l Hl]%no_null_slot_assets (a & Ha & Hk).
  assert (mInited p = true) as Hinit.
  { destruct (mInited p) eqn:Hinit; [done|].
    apply (reachable_not_inited_empty _ _ _ _ _ Hreach) in Hinit.
    rewrite Hinit in Ha. by apply elem_of_nil in Ha. }
  destruct (find_if_hash_registered (newHash_of std_hash completeFileName) l)
    as (n & Hn & Hlt).
  { exists a. split; [|done]. rewrite Hl in Ha.
    by apply list_elem_of_fmap in Ha as (? & [= ->] & ?). }
  unfold loadFile. rewrite Hinit, Hl, Hn. cbn. rewrite length_fmap.
  destruct (decide (n ≠ length l)) as [_|?]; [done|lia].
Qed.

Lemma loadFile_registered_leaves_zero_witness :
  reachable length_hash 0 8 9 two_sounds ∧ no_null_slot two_sounds ∧
  registered (newHash_of length_hash "a.wav") two_sounds ∧
  loadFile length_hash 0 8 9 "a.wav" 77 0 two_sounds = Ok (9%Z, 0%Z, two_sounds).
Proof.
  assert (registered (newHash_of length_hash "a.wav") two_sounds) as Hk.
  { eexists. split; [left|reflexivity]. }
  split; [exact two_sounds_reachable|]. split; [exact two_sounds_no_null_slot|].
  split; [exact Hk|].
  exact (loadFile_registered_leaves_zero length_hash 0 8 9 "a.wav" 77 0 two_sounds
           two_sounds_reachable two_sounds_no_null_slot Hk).
Defined.

(** C9 — [loadFile] for a file whose hash is registered, after a file was
    refused.  On a started player whose slots all hold sounds, a call of
    [loadFile] that [sound.load] refuses leaves the new sound and a null slot
    behind it (C1).  A second call for that file finds the sound before the
    null slot: it returns [fileAlreadyLoaded] with the caller's [hash] left
    at zero and the player as it was.  After a text was spoken, the entry of
    the text (hash 0) is registered behind the null slot; [loadFile] for a
    file whose hash is 0 then scans up to the null slot and dereferences it:
    it returns neither [fileAlreadyLoaded] nor a hash. *)
Theorem loadFile_registered_behind_null_slot (std_hash : string → Z)
    (SO_NO_ERROR backendNotInited fileAlreadyLoaded : Z)
    (f f2 text : string) (hash result h0 ph : Z)
    (l : list ActiveSound) (p : Player) :
  mInited p = true → sounds p = Some <$> l →
  Forall (λ b, soundHash b ≠ newHash_of std_hash f) l →
  result ≠ SO_NO_ERROR →
  newHash_of std_hash f ≠ 0%Z → Forall (λ b, soundHash b ≠ 0%Z) l →
  newHash_of std_hash f2 = 0%Z →
  ∃ p1 p2,
    loadFile std_hash SO_NO_ERROR backendNotInited fileAlreadyLoaded f hash result p
    = Ok (result, newHash_of std_hash f, p1) ∧
    (∀ hash' result',
       loadFile std_hash SO_NO_ERROR backendNotInited fileAlreadyLoaded
         f hash' result' p1 = Ok (fileAlreadyLoaded, 0%Z, p1)) ∧
    textToSpeech SO_NO_ERROR backendNotInited text h0 SO_NO_ERROR ph p1
    = (SO_NO_ERROR, ph, p2) ∧
    registered (newHash_of std_hash f2) p2 ∧
    (∀ hash2 result2,
       loadFile std_hash SO_NO_ERROR backendNotInited fileAlreadyLoaded
         f2 hash2 result2 p2 = UB).
Proof.
  intros Hi Hv Hl Hres Hf Hzero Hf2.
  set (m := mkActiveSound (Wav_load Wav_new f result) f [] (newHash_of std_hash f)).
  assert (Forall (λ b, soundHash b ≠ 0%Z) (l ++ [m])) as Hzero'
    by (by apply refused_prefix).
  eexists _, _. split; [by apply loadFile_refused_result|].
  split; [|split; [by apply textToSpeech_accepted_result|split]].
  - intros hash' result'. unfold loadFile. cbn [sounds mInited negb].
    rewrite fmap_app, <- app_assoc.
    change (Some <$> [?x]) with [Some x]. cbn [app]. fold m.
    rewrite (find_if_hash_found (newHash_of std_hash f) l m [None] Hl eq_refl).
    unfold mbind, outcome_bind. cbv beta iota.
    destruct (decide _) as [_|Heq]; [done|].
    exfalso. apply Heq. rewrite length_app, length_fmap. cbn. lia.
  - exists (mkActiveSound Wav_new "" [ph] 0). split; [|by rewrite Hf2].
    cbn [sounds]. apply elem_of_app. right. left.
  - intros hash2 result2. unfold loadFile. cbn [sounds mInited negb].
    subst m. rewrite Hf2, <- app_assoc. cbn [app].
    by rewrite (proj1 (scan_reaches_null_slot 0 0 _ _) Hzero').
Qed.

Lemma loadFile_registered_behind_null_slot_witness :
  run_all length_hash 0 8 9
    [Op_init 0; Op_loadFile "missing.wav" 0 2; Op_textToSpeech "hi" 0 0 21]
    Player_new = Ok refused_then_spoken ∧
  mInited (mkPlayer [] true [call_init]) = true ∧
  sounds (mkPlayer [] true [call_init]) = Some <$> [] ∧
  Forall (λ b, soundHash b ≠ newHash_of length_hash "missing.wav") [] ∧
  2%Z ≠ 0%Z ∧ newHash_of length_hash "missing.wav" ≠ 0%Z ∧
  Forall (λ b, soundHash b ≠ 0%Z) [] ∧ newHash_of length_hash "" = 0%Z ∧
  ∃ p1 p2,
    loadFile length_hash 0 8 9 "missing.wav" 0 2 (mkPlayer [] true [call_init])
    = Ok (2%Z, newHash_of length_hash "missing.wav", p1) ∧
    (∀ hash' result',
       loadFile length_hash 0 8 9 "missing.wav" hash' result' p1
       = Ok (9%Z, 0%Z, p1)) ∧
    textToSpeech 0 8 "hi" 0 0 21 p1 = (0%Z, 21%Z, p2) ∧
    registered (newHash_of length_hash "") p2 ∧
    (∀ hash2 result2, loadFile length_hash 0 8 9 "" hash2 result2 p2 = UB).
Proof.
  assert (2%Z ≠ 0%Z) as Hres by done.
  assert (newHash_of length_hash "missing.wav" ≠ 0%Z) as Hf by done.
  split; [reflexivity|]. split; [reflexivity|]. split; [reflexivity|].
  split; [exact (Forall_nil_2 _)|]. split; [exact Hres|]. split; [exact Hf|].
  split; [exact (Forall_nil_2 _)|]. split; [reflexivity|].
  exact (loadFile_registered_behind_null_slot length_hash 0 8 9
           "missing.wav" "" "hi" 0 2 0 21 [] (mkPlayer [] true [call_init])
           eq_refl eq_refl (Forall_nil_2 _) Hres Hf (Forall_nil_2 _) eq_refl).
Defined.

(** ** The failure branches that append a slot *)

(** C1 — What [loadFile] does when [sound.load] fails, for a file whose
    hash no registered sound has: it returns the code of [sound.load]
    unchanged, but the sound pushed before decoding stays in [sounds] with
    the new hash, followed by the null slot of [sounds.emplace_back()]; the
    count has grown by two and [hash] holds the new hash.  The registry is
    not as it was before the call. *)
Theorem loadFile_failure_keeps_sound (std_hash : string → Z)
    (SO_NO_ERROR backendNotInited fileAlreadyLoaded : Z)
    (completeFileName : string) (hash result : Z) (p : Player) :
  mInited p = true → no_null_slot p →
  ¬ registered (newHash_of std_hash completeFileName) p →
  result ≠ SO_NO_ERROR →
  let newHash := newHash_of std_hash completeFileName in
  let a := mkActiveSound (Wav_load Wav_new completeFileName result)
             completeFileName [] newHash in
  let p' := mkPlayer (sounds p ++ [Some a; None]) true
              (soloud p ++ [call_load completeFileName]) in
  loadFile std_hash SO_NO_ERROR backendNotInited fileAlreadyLoaded
    completeFileName hash result p = Ok (result, newHash, p') ∧
  getSoundsCount p' = getSoundsCount p + 2 ∧
  registered newHash p' ∧ ¬ no_null_slot p'.
Proof.
  intros Hinit [l Hl]%no_null_slot_assets Hk Hres newHash a p'.
  pose proof (find_if_hash_missing newHash l (not_registered_all _ p l Hl Hk))
    as Hfind.
  split; [|split; [|split]].
  - unfold loadFile. rewrite Hinit. cbn. fold newHash. rewrite Hl, Hfind. cbn.
    destruct (decide _) as [?|_]; [done|].
    destruct (Z.eqb_spec result SO_NO_ERROR) as [?|_]; [done|]. cbn.
    unfold set_sounds, engine, p'. cbn. rewrite Hinit, Hl, <- app_assoc. done.
  - unfold getSoundsCount, p'. cbn. rewrite length_app. cbn. lia.
  - exists a. split; [|done]. cbn. apply elem_of_app. right. left.
  - intros Hnull. apply Hnull. cbn. apply elem_of_app. right. right. left.
Qed.

Lemma loadFile_failure_keeps_sound_witness :
  mInited (mkPlayer [] true [call_init]) = true ∧
  no_null_slot (mkPlayer [] true [call_init]) ∧
  ¬ registered (newHash_of length_hash "missing.wav") (mkPlayer [] true [call_init]) ∧
  (2 ≠ 0)%Z ∧
  loadFile length_hash 0 8 9 "missing.wav" 77 2 (mkPlayer [] true [call_init])
  = Ok (2%Z, 11%Z,
        mkPlayer
          [Some (mkActiveSound (Wav_load Wav_new "missing.wav" 2) "missing.wav" [] 11);
           None]
          true [call_init; call_load "missing.wav"]).
Proof.
  assert (no_null_slot (mkPlayer [] true [call_init])) as Hnull.
  { intros H. elem_cases H. }
  assert (¬ registered (newHash_of length_hash "missing.wav")
            (mkPlayer [] true [call_init])) as Hk.
  { intros (a & Ha & _). elem_cases Ha. }
  split; [reflexivity|]. split; [exact Hnull|]. split; [exact Hk|]. split; [lia|].
  apply (loadFile_failure_keeps_sound length_hash 0 8 9 "missing.wav" 77 2
           (mkPlayer [] true [call_init]) eq_refl Hnull Hk). lia.
Defined.

(** After a refused file every scan of [sounds] that finds nothing before
    the null slot is undefined: here [play] with a hash that is not
    registered. *)
Lemma play_after_refused_file :
  run_all length_hash 0 8 9
    [Op_init 0; Op_loadFile "missing.wav" 0 2] Player_new
  = Ok (mkPlayer
          [Some (mkActiveSound (Wav_load Wav_new "missing.wav" 2) "missing.wav" [] 11);
           None]
          true [call_init; call_load "missing.wav"]) ∧
  run_all length_hash 0 8 9
    [Op_init 0; Op_loadFile "missing.wav" 0 2; Op_play 999 1 0 false 14] Player_new
  = UB.
Proof. split; reflexivity. Qed.

(** C7 — What [textToSpeech] does on a started player.  When
    [speech.setText] succeeds, one new sound with an empty file name and
    hash 0 is appended, whatever is registered already, and its handle list
    is exactly the handle returned.  When [speech.setText] fails, the code
    of [speech.setText] is returned, the caller's [handle] keeps its value,
    the new sound stays in [sounds] with no handle, and after it comes the
    null slot of [sounds.emplace_back()]: the count has grown by two, not
    by one. *)
Theorem textToSpeech_registers (SO_NO_ERROR backendNotInited : Z) (text : string)
    (handle0 result playHandle : Z) (p : Player) :
  mInited p = true →
  (result = SO_NO_ERROR →
     textToSpeech SO_NO_ERROR backendNotInited text handle0 result playHandle p
     = (result, playHandle,
        mkPlayer (sounds p ++ [Some (mkActiveSound Wav_new "" [playHandle] 0)]) true
          (soloud p ++ [call_setText text; call_play_speech]))) ∧
  (result ≠ SO_NO_ERROR →
     textToSpeech SO_NO_ERROR backendNotInited text handle0 result playHandle p
     = (result, handle0,
        mkPlayer (sounds p ++ [Some (mkActiveSound Wav_new "" [] 0); None]) true
          (soloud p ++ [call_setText text])) ∧
     getSoundsCount
       (textToSpeech SO_NO_ERROR backendNotInited text handle0 result playHandle p).2
     = getSoundsCount p + 2).
Proof.
  intros Hinit. unfold textToSpeech. rewrite Hinit. cbn.
  destruct (Z.eqb_spec result SO_NO_ERROR) as [Heq|Hne].
  - split; [intros _|done]. unfold set_sounds, engine. cbn. rewrite Hinit.
    f_equal. f_equal; [|by rewrite <- app_assoc].
    rewrite length_app. cbn.
    replace (length (sounds p) + 1 - 1) with (length (sounds p) + 0) by lia.
    by rewrite insert_app_r.
  - split; [done|intros _]. unfold set_sounds, engine, getSoundsCount. cbn.
    rewrite Hinit, <- app_assoc. split; [done|]. rewrite length_app. cbn. lia.
Qed.

Lemma textToSpeech_registers_witness :
  mInited (mkPlayer [] true [call_init]) = true ∧
  (2 ≠ 0)%Z ∧
  textToSpeech 0 8 "hello" 77 2 21 (mkPlayer [] true [call_init])
  = (2%Z, 77%Z,
     mkPlayer [Some (mkActiveSound Wav_new "" [] 0); None] true
       [call_init; call_setText "hello"]) ∧
  textToSpeech 0 8 "hello" 77 0 21 (mkPlayer [] true [call_init])
  = (0%Z, 21%Z,
     mkPlayer [Some (mkActiveSound Wav_new "" [21%Z] 0)] true
       [call_init; call_setText "hello"; call_play_speech]).
Proof.
  split; [reflexivity|]. split; [lia|]. split.
  - apply (textToSpeech_registers 0 8 "hello" 77 2 21
             (mkPlayer [] true [call_init]) eq_refl). lia.
  - apply (textToSpeech_registers 0 8 "hello" 77 0 21
             (mkPlayer [] true [call_init]) eq_refl). reflexivity.
Defined.

(** ** Playing *)

(** X23 — For the first sound with a hash, every slot before it holding a
    sound of another hash: [play] and [play3d] append to the handle list of
    that sound exactly the value the engine returned, unchecked, and return
    that value.  When the engine returns 0, 0 is appended and returned: the
    registry has changed although the call returned 0. *)
Theorem play_appends_engine_handle (k : Z) (pre : list ActiveSound)
    (a : ActiveSound) (post : list (option ActiveSound))
    (volume pan : float) (paused : bool)
    (aPosX aPosY aPosZ aVelX aVelY aVelZ aVolume : float) (aPaused : bool)
    (aBus : Z) (newHandle : Z) (p : Player) :
  sounds p = (Some <$> pre) ++ Some a :: post →
  Forall (λ b, soundHash b ≠ k) pre → soundHash a = k →
  let a' := set_handle (handle a ++ [newHandle]) a in
  let v' := (Some <$> pre) ++ Some a' :: post in
  play k volume pan paused newHandle p
  = Ok (newHandle,
        mkPlayer v' (mInited p)
          (soloud p ++ [call_play (sound a) volume pan paused 0])) ∧
  play3d k aPosX aPosY aPosZ aVelX aVelY aVelZ aVolume aPaused aBus newHandle p
  = Ok (newHandle,
        mkPlayer v' (mInited p)
          (soloud p ++ [call_play3d (sound a) aPosX aPosY aPosZ aVelX aVelY aVelZ
                          aVolume aPaused aBus])) ∧
  v' ≠ sounds p.
Proof.
  intros Hv Hpre Ha a' v'.
  pose proof (find_if_hash_found k pre a post Hpre Ha) as Hfind.
  assert (length pre ≠ length (sounds p)) as Hlen.
  { rewrite Hv, length_app, length_fmap. cbn. lia. }
  split; [|split].
  - unfold play, set_sounds, engine. cbn. rewrite Hv in Hlen |- *.
    rewrite Hfind. cbn. destruct (decide _) as [?|_]; [done|].
    rewrite lookup_found_slot. by rewrite insert_found_slot.
  - unfold play3d, set_sounds, engine. cbn. rewrite Hv in Hlen |- *.
    rewrite Hfind. cbn. destruct (decide _) as [?|_]; [done|].
    rewrite lookup_found_slot. by rewrite insert_found_slot.
  - rewrite Hv. unfold v'. intros [= Heq]%app_inv_head.
    apply (f_equal (λ x, length (handle x))) in Heq. cbn in Heq.
    rewrite length_app in Heq. cbn in Heq. lia.
Qed.

Lemma play_appends_engine_handle_witness :
  let a := mkActiveSound (Wav_load Wav_new "a.wav" 0) "a.wav" [11; 12]%Z 5 in
  let b := mkActiveSound (Wav_load Wav_new "bb.wav" 0) "bb.wav" [] 6 in
  sounds two_sounds = (Some <$> [a]) ++ Some b :: [] ∧
  Forall (λ c, soundHash c ≠ 6%Z) [a] ∧ soundHash b = 6%Z ∧
  play 6 1 0 false 0 two_sounds
  = Ok (0%Z,
        mkPlayer [Some a; Some (set_handle [0%Z] b)] true
          (soloud two_sounds ++ [call_play (sound b) 1 0 false 0])).
Proof.
  intros a b.
  assert (Forall (λ c, soundHash c ≠ 6%Z) [a]) as Hpre.
  { constructor; [discriminate|constructor]. }
  split; [reflexivity|]. split; [exact Hpre|]. split; [reflexivity|].
  exact (proj1 (play_appends_engine_handle 6 [a] b [] 1 0 false 0 0 0 0 0 0 1
                  false 0 0 two_sounds eq_refl Hpre eq_refl)).
Defined.

(** C10 — [play] and [play3d] for a hash that is registered behind a
    null slot.  On a started player whose slots all hold sounds, none of
    hash 0, a call of [loadFile] that [sound.load] refuses leaves the new
    sound and a null slot behind it (C1); a text spoken afterwards is
    registered behind the null slot, with hash 0.  Hash 0 then has a
    registered sound, but [play] and [play3d] for it scan up to the null
    slot and dereference it: they ask the engine for no voice, append no
    handle and do not return. *)
Theorem play_registered_behind_null_slot (std_hash : string → Z)
    (SO_NO_ERROR backendNotInited fileAlreadyLoaded : Z)
    (f text : string) (hash result h0 ph : Z)
    (l : list ActiveSound) (p : Player) :
  mInited p = true → sounds p = Some <$> l →
  Forall (λ b, soundHash b ≠ newHash_of std_hash f) l →
  result ≠ SO_NO_ERROR →
  newHash_of std_hash f ≠ 0%Z → Forall (λ b, soundHash b ≠ 0%Z) l →
  ∃ p1 p2,
    loadFile std_hash SO_NO_ERROR backendNotInited fileAlreadyLoaded f hash result p
    = Ok (result, newHash_of std_hash f, p1) ∧
    textToSpeech SO_NO_ERROR backendNotInited text h0 SO_NO_ERROR ph p1
    = (SO_NO_ERROR, ph, p2) ∧
    registered 0 p2 ∧
    (∀ volume pan paused nh, play 0 volume pan paused nh p2 = UB) ∧
    (∀ x y z vx vy vz vol paused bus nh,
       play3d 0 x y z vx vy vz vol paused bus nh p2 = UB).
Proof.
  intros Hi Hv Hl Hres Hf Hzero.
  set (m := mkActiveSound (Wav_load Wav_new f result) f [] (newHash_of std_hash f)).
  assert (Forall (λ b, soundHash b ≠ 0%Z) (l ++ [m])) as Hzero'
    by (by apply refused_prefix).
  eexists _, _. split; [by apply loadFile_refused_result|].
  split; [by apply textToSpeech_accepted_result|]. split; [|split].
  - exists (mkActiveSound Wav_new "" [ph] 0). split; [|done].
    cbn [sounds]. apply elem_of_app. right. left.
  - intros volume pan paused nh. subst m. unfold play. cbn [sounds].
    rewrite <- app_assoc. cbn [app].
    by rewrite (proj1 (scan_reaches_null_slot 0 0 _ _) Hzero').
  - intros x y z vx vy vz vol paused bus nh. subst m. unfold play3d.
    cbn [sounds]. rewrite <- app_assoc. cbn [app].
    by rewrite (proj1 (scan_reaches_null_slot 0 0 _ _) Hzero').
Qed.

Lemma play_registered_behind_null_slot_witness :
  run_all length_hash 0 8 9
    [Op_init 0; Op_loadFile "missing.wav" 0 2; Op_textToSpeech "hi" 0 0 21]
    Player_new = Ok refused_then_spoken ∧
  mInited (mkPlayer [] true [call_init]) = true ∧
  sounds (mkPlayer [] true [call_init]) = Some <$> [] ∧
  Forall (λ b, soundHash b ≠ newHash_of length_hash "missing.wav") [] ∧
  2%Z ≠ 0%Z ∧ newHash_of length_hash "missing.wav" ≠ 0%Z ∧
  Forall (λ b, soundHash b ≠ 0%Z) [] ∧
  ∃ p1 p2,
    loadFile length_hash 0 8 9 "missing.wav" 0 2 (mkPlayer [] true [call_init])
    = Ok (2%Z, newHash_of length_hash "missing.wav", p1) ∧
    textToSpeech 0 8 "hi" 0 0 21 p1 = (0%Z, 21%Z, p2) ∧
    registered 0 p2 ∧
    (∀ volume pan paused nh, play 0 volume pan paused nh p2 = UB) ∧
    (∀ x y z vx vy vz vol paused bus nh,
       play3d 0 x y z vx vy vz vol paused bus nh p2 = UB).
Proof.
  assert (2%Z ≠ 0%Z) as Hres by done.
  assert (newHash_of length_hash "missing.wav" ≠ 0%Z) as Hf by done.
  split; [reflexivity|]. split; [reflexivity|]. split; [reflexivity|].
  split; [exact (Forall_nil_2 _)|]. split; [exact Hres|]. split; [exact Hf|].
  split; [exact (Forall_nil_2 _)|].
  exact (play_registered_behind_null_slot length_hash 0 8 9
           "missing.wav" "hi" 0 2 0 21 [] (mkPlayer [] true [call_init])
           eq_refl eq_refl (Forall_nil_2 _) Hres Hf (Forall_nil_2 _)).
Defined.

(** ** Resolving a handle *)

(** X21 — In a registry whose slots all hold a sound, [findByHandle]
    returns a sound and an index such that the handle list of that sound
    holds the handle at that index whenever some registered sound lists the
    handle, and it returns [nullptr] exactly when no registered sound lists
    the handle. *)
Theorem findByHandle_resolves (h : Z) (p : Player) :
  no_null_slot p →
  (listed h p →
     ∃ i handleId a, findByHandle h p = Ok (Some (i, handleId)) ∧
       sounds p !! i = Some (Some a) ∧ handle a !! handleId = Some h) ∧
  (findByHandle h p = Ok None ↔ ¬ listed h p).
Proof.
  intros [l Hl]%no_null_slot_assets. unfold findByHandle. rewrite Hl.
  destruct (findByHandle_from_inv h l 0)
    as [[Hnone Hall]|(pre & a & post & l1 & l2 & -> & Hpre & Ha & Hl1 & Hfound)].
  - pose proof (all_not_listed h p l Hl Hall) as Hnot. split; [done|].
    by rewrite Hnone.
  - rewrite Hfound. rewrite fmap_app, fmap_cons in Hl |- *.
    assert (listed h p) as Hlisted.
    { exists a. split.
      - rewrite Hl. apply elem_of_app. right. left.
      - rewrite Ha. apply elem_of_app. right. left. }
    split.
    + intros _. exists (length pre), (length l1), a. split; [done|]. split.
      * apply lookup_found_slot.
      * rewrite Ha. by apply list_lookup_middle.
    + split; [done|]. intros Hnot. by destruct Hnot.
Qed.

Lemma findByHandle_resolves_witness :
  no_null_slot two_sounds ∧ listed 12 two_sounds ∧
  ∃ i handleId a, findByHandle 12 two_sounds = Ok (Some (i, handleId)) ∧
    sounds two_sounds !! i = Some (Some a) ∧ handle a !! handleId = Some 12%Z.
Proof.
  assert (listed 12 two_sounds) as Hh.
  { eexists. split; [left|]. cbn. right. left. }
  split; [exact two_sounds_no_null_slot|]. split; [exact Hh|].
  exact (proj1 (findByHandle_resolves 12 two_sounds two_sounds_no_null_slot) Hh).
Defined.

(** C8 — [findByHandle] on the registry a refused file leaves.  On a
    started player whose slots all hold sounds, a call of [loadFile] that
    [sound.load] refuses leaves the new sound and a null slot behind it
    (C1); a text spoken afterwards is registered behind the null slot with
    the voice the engine returned.  For that voice, which a registered sound
    lists, and for a handle that no sound lists, [findByHandle] scans up to
    the null slot and dereferences it: it returns neither a sound with an
    index nor [nullptr]. *)
Theorem findByHandle_behind_null_slot (std_hash : string → Z)
    (SO_NO_ERROR backendNotInited fileAlreadyLoaded : Z)
    (f text : string) (hash result h0 ph h : Z)
    (l : list ActiveSound) (p : Player) :
  mInited p = true → sounds p = Some <$> l →
  Forall (λ b, soundHash b ≠ newHash_of std_hash f) l →
  result ≠ SO_NO_ERROR →
  Forall (λ b, ph ∉ handle b) l → Forall (λ b, h ∉ handle b) l → h ≠ ph →
  ∃ p1 p2,
    loadFile std_hash SO_NO_ERROR backendNotInited fileAlreadyLoaded f hash result p
    = Ok (result, newHash_of std_hash f, p1) ∧
    textToSpeech SO_NO_ERROR backendNotInited text h0 SO_NO_ERROR ph p1
    = (SO_NO_ERROR, ph, p2) ∧
    listed ph p2 ∧ findByHandle ph p2 = UB ∧
    ¬ listed h p2 ∧ findByHandle h p2 = UB.
Proof.
  intros Hi Hv Hl Hres Hph Hh Hne.
  set (m := mkActiveSound (Wav_load Wav_new f result) f [] (newHash_of std_hash f)).
  assert (Forall (λ b, ph ∉ handle b) (l ++ [m])) as Hph'
    by (apply refused_prefix; [done|by intros ?%elem_of_nil]).
  assert (Forall (λ b, h ∉ handle b) (l ++ [m])) as Hh'
    by (apply refused_prefix; [done|by intros ?%elem_of_nil]).
  eexists _, _. split; [by apply loadFile_refused_result|].
  split; [by apply textToSpeech_accepted_result|]. split; [|split; [|split]].
  - exists (mkActiveSound Wav_new "" [ph] 0). split; [|left].
    cbn [sounds]. apply elem_of_app. right. left.
  - subst m. unfold findByHandle. cbn [sounds]. rewrite <- app_assoc. cbn [app].
    by rewrite (proj2 (scan_reaches_null_slot 0 ph _ _) Hph').
  - apply (listed_in_prefix h (l ++ [m]) [mkActiveSound Wav_new "" [ph] 0]);
      [cbn [sounds]; by rewrite <- app_assoc|done|].
    repeat constructor. cbn. by intros [?|?%elem_of_nil]%elem_of_cons.
  - subst m. unfold findByHandle. cbn [sounds]. rewrite <- app_assoc. cbn [app].
    by rewrite (proj2 (scan_reaches_null_slot 0 h _ _) Hh').
Qed.

Lemma findByHandle_behind_null_slot_witness :
  run_all length_hash 0 8 9
    [Op_init 0; Op_loadFile "missing.wav" 0 2; Op_textToSpeech "hi" 0 0 21]
    Player_new = Ok refused_then_spoken ∧
  mInited (mkPlayer [] true [call_init]) = true ∧
  sounds (mkPlayer [] true [call_init]) = Some <$> [] ∧
  Forall (λ b, soundHash b ≠ newHash_of length_hash "missing.wav") [] ∧
  2%Z ≠ 0%Z ∧ Forall (λ b, 21%Z ∉ handle b) [] ∧
  Forall (λ b, 13%Z ∉ handle b) [] ∧ 13%Z ≠ 21%Z ∧
  ∃ p1 p2,
    loadFile length_hash 0 8 9 "missing.wav" 0 2 (mkPlayer [] true [call_init])
    = Ok (2%Z, newHash_of length_hash "missing.wav", p1) ∧
    textToSpeech 0 8 "hi" 0 0 21 p1 = (0%Z, 21%Z, p2) ∧
    listed 21 p2 ∧ findByHandle 21 p2 = UB ∧
    ¬ listed 13 p2 ∧ findByHandle 13 p2 = UB.
Proof.
  assert (2%Z ≠ 0%Z) as Hres by done.
  assert (13%Z ≠ 21%Z) as Hne by done.
  split; [reflexivity|]. split; [reflexivity|]. split; [reflexivity|].
  split; [exact (Forall_nil_2 _)|]. split; [exact Hres|].
  split; [exact (Forall_nil_2 _)|]. split; [exact (Forall_nil_2 _)|].
  split; [exact Hne|].
  exact (findByHandle_behind_null_slot length_hash 0 8 9
           "missing.wav" "hi" 0 2 0 21 13 [] (mkPlayer [] true [call_init])
           eq_refl eq_refl (Forall_nil_2 _) Hres (Forall_nil_2 _) (Forall_nil_2 _)
           Hne).
Defined.

(** ** Misses *)

(** X20 — In a registry whose slots all hold a sound: [play] with a hash
    that no registered sound has returns 0 and leaves the player as it was,
    the trace of engine calls included; [stop] with a handle that no sound
    lists leaves the player as it was; [getLength] with a hash that no
    registered sound has returns 0.0. *)
Theorem miss_leaves_player (k h : Z) (volume pan : float) (paused : bool)
    (newHandle : Z) (len : float) (p : Player) :
  no_null_slot p → ¬ registered k p → ¬ listed h p →
  play k volume pan paused newHandle p = Ok (0%Z, p) ∧
  stop h p = Ok p ∧
  getLength k len p = Ok (0%float, p).
Proof.
  intros [l Hl]%no_null_slot_assets Hk Hh.
  pose proof (find_if_hash_missing k l (not_registered_all k p l Hl Hk)) as Hfind.
  pose proof (findByHandle_from_missing h l 0 (not_listed_all h p l Hl Hh)) as Hres.
  unfold play, stop, getLength, findByHandle. rewrite Hl, Hfind, Hres. cbn.
  by destruct (decide _).
Qed.

Lemma miss_leaves_player_witness :
  no_null_slot two_sounds ∧ ¬ registered 999 two_sounds ∧ ¬ listed 13 two_sounds ∧
  play 999 1 0 false 14 two_sounds = Ok (0%Z, two_sounds) ∧
  stop 13 two_sounds = Ok two_sounds ∧
  getLength 999 2.5 two_sounds = Ok (0%float, two_sounds).
Proof.
  assert (¬ registered 999 two_sounds) as Hk.
  { intros (a & Ha & Hk). elem_cases Ha; injection Ha as ->; discriminate. }
  assert (¬ listed 13 two_sounds) as Hh.
  { intros (a & Ha & Hh). elem_cases Ha; injection Ha as ->; cbn in Hh;
      elem_cases Hh; discriminate. }
  split; [exact two_sounds_no_null_slot|]. split; [exact Hk|]. split; [exact Hh|].
  exact (miss_leaves_player 999 13 1 0 false 14 2.5 two_sounds
           two_sounds_no_null_slot Hk Hh).
Defined.

(** C6 — The three lookups on the registry a refused file leaves.  On a
    started player whose slots all hold sounds, a call of [loadFile] that
    [sound.load] refuses leaves the new sound and a null slot behind it
    (C1).  On that registry [play] with a hash that no registered sound has,
    [stop] with a handle that no sound lists and [getLength] with a hash
    that no registered sound has scan up to the null slot and dereference
    it: [play] does not return 0, [stop] does not return and [getLength]
    does not return 0.0. *)
Theorem miss_after_refused_file (std_hash : string → Z)
    (SO_NO_ERROR backendNotInited fileAlreadyLoaded : Z)
    (f : string) (hash result k h : Z) (l : list ActiveSound) (p : Player) :
  mInited p = true → sounds p = Some <$> l →
  Forall (λ b, soundHash b ≠ newHash_of std_hash f) l →
  result ≠ SO_NO_ERROR →
  k ≠ newHash_of std_hash f → Forall (λ b, soundHash b ≠ k) l →
  Forall (λ b, h ∉ handle b) l →
  ∃ p1,
    loadFile std_hash SO_NO_ERROR backendNotInited fileAlreadyLoaded f hash result p
    = Ok (result, newHash_of std_hash f, p1) ∧
    ¬ registered k p1 ∧ ¬ listed h p1 ∧
    (∀ volume pan paused nh, play k volume pan paused nh p1 = UB) ∧
    stop h p1 = UB ∧
    (∀ len, getLength k len p1 = UB).
Proof.
  intros Hi Hv Hl Hres Hkf Hk Hh.
  set (m := mkActiveSound (Wav_load Wav_new f result) f [] (newHash_of std_hash f)).
  assert (Forall (λ b, soundHash b ≠ k) (l ++ [m])) as Hk'
    by (apply refused_prefix; [done|cbn; congruence]).
  assert (Forall (λ b, h ∉ handle b) (l ++ [m])) as Hh'
    by (apply refused_prefix; [done|by intros ?%elem_of_nil]).
  eexists. split; [by apply loadFile_refused_result|].
  split; [|split; [|split; [|split]]].
  - by apply (registered_in_prefix k (l ++ [m]) []).
  - by apply (listed_in_prefix h (l ++ [m]) []).
  - intros volume pan paused nh. subst m. unfold play. cbn [sounds].
    by rewrite (proj1 (scan_reaches_null_slot k h _ _) Hk').
  - subst m. unfold stop, findByHandle. cbn [sounds].
    by rewrite (proj2 (scan_reaches_null_slot k h _ _) Hh').
  - intros len. subst m. unfold getLength. cbn [sounds].
    by rewrite (proj1 (scan_reaches_null_slot k h _ _) Hk').
Qed.

Lemma miss_after_refused_file_witness :
  run_all length_hash 0 8 9
    [Op_init 0; Op_loadFile "missing.wav" 0 2] Player_new = Ok refused_file ∧
  mInited (mkPlayer [] true [call_init]) = true ∧
  sounds (mkPlayer [] true [call_init]) = Some <$> [] ∧
  Forall (λ b, soundHash b ≠ newHash_of length_hash "missing.wav") [] ∧
  2%Z ≠ 0%Z ∧ 999%Z ≠ newHash_of length_hash "missing.wav" ∧
  Forall (λ b, soundHash b ≠ 999%Z) [] ∧ Forall (λ b, 13%Z ∉ handle b) [] ∧
  ∃ p1,
    loadFile length_hash 0 8 9 "missing.wav" 0 2 (mkPlayer [] true [call_init])
    = Ok (2%Z, newHash_of length_hash "missing.wav", p1) ∧
    ¬ registered 999 p1 ∧ ¬ listed 13 p1 ∧
    (∀ volume pan paused nh, play 999 volume pan paused nh p1 = UB) ∧
    stop 13 p1 = UB ∧
    (∀ len, getLength 999 len p1 = UB).
Proof.
  assert (2%Z ≠ 0%Z) as Hres by done.
  assert (999%Z ≠ newHash_of length_hash "missing.wav") as Hk by done.
  split; [reflexivity|]. split; [reflexivity|]. split; [reflexivity|].
  split; [exact (Forall_nil_2 _)|]. split; [exact Hres|]. split; [exact Hk|].
  split; [exact (Forall_nil_2 _)|]. split; [exact (Forall_nil_2 _)|].
  exact (miss_after_refused_file length_hash 0 8 9 "missing.wav" 0 2 999 13 []
           (mkPlayer [] true [call_init])
           eq_refl eq_refl (Forall_nil_2 _) Hres Hk (Forall_nil_2 _) (Forall_nil_2 _)).
Defined.

(** ** Stopping one voice *)

(** With a handle listed twice, [erase(remove_if(...))] drops both copies
    and repeats the last entry: stopping 0 turns the list 5, 0, 0, 7 into
    5, 7, 7, which is not the old list less one entry 0. *)
Lemma stop_listed_twice :
  run_all length_hash 0 8 9
    [Op_init 0; Op_loadFile "a.wav" 0 0; Op_play 5 1 0 false 5;
     Op_play 5 1 0 false 0; Op_play 5 1 0 false 0; Op_play 5 1 0 false 7]
    Player_new = Ok replayed ∧
  stop 0 replayed
  = Ok (mkPlayer
          [Some (mkActiveSound (Wav_load Wav_new "a.wav" 0) "a.wav" [5; 7; 7]%Z 5)]
          true (soloud replayed ++ [call_stop 0])) ∧
  ¬ stop_removes_entry 0 replayed.
Proof.
  split; [reflexivity|]. split; [reflexivity|].
  intros Hspec.
  destruct (Hspec 0 _ eq_refl) as (l1 & l2 & p' & a' & Hl & Hstop & Ha' & Hp' & _).
  { cbn. right. left. }
  cbn in Hl. vm_compute in Hstop. injection Hstop as <-.
  cbn in Ha'. injection Ha' as <-. cbn in Hp'.
  clear Hspec.
  destruct l1 as [|x1 [|x2 [|x3 [|x4 l1]]]]; simplify_eq/=.
Qed.

(** C3 (amended) — For the first registered sound that lists a handle [h],
    when [h] occurs exactly once in its list: [stop h] tells the engine to
    stop [h] and removes that one entry from the list of that sound, which
    shrinks by one; the other entries keep their order and each of them
    still resolves to a registered sound; the sound itself stays registered,
    also when the list becomes empty, and the count is unchanged. *)
Theorem stop_removes_single_entry (h : Z) (pre : list ActiveSound)
    (a : ActiveSound) (post : list (option ActiveSound)) (l1 l2 : list Z)
    (p : Player) :
  sounds p = (Some <$> pre) ++ Some a :: post →
  Forall (λ b, h ∉ handle b) pre →
  handle a = l1 ++ h :: l2 → h ∉ l1 → h ∉ l2 →
  let a' := set_handle (l1 ++ l2) a in
  let p' := mkPlayer ((Some <$> pre) ++ Some a' :: post) (mInited p)
              (soloud p ++ [call_stop h]) in
  stop h p = Ok p' ∧
  S (length (handle a')) = length (handle a) ∧
  getSoundsCount p' = getSoundsCount p ∧
  ∀ h', h' ∈ l1 ++ l2 →
    ∃ i handleId b, findByHandle h' p' = Ok (Some (i, handleId)) ∧
      sounds p' !! i = Some (Some b) ∧ handle b !! handleId = Some h'.
Proof.
  intros Hv Hpre Ha Hl1 Hl2 a' p'. split; [|split; [|split]].
  - unfold stop, findByHandle. rewrite Hv.
    rewrite (findByHandle_from_found h pre a post l1 l2 0 Hpre Ha Hl1). cbn.
    rewrite lookup_found_slot, Ha.
    rewrite (erase_remove_if_unique (handle_is h) id l1 l2 h); cycle 1.
    + intros y Hy. unfold handle_is. destruct (Z.eqb_spec y h) as [->|_]; done.
    + intros y Hy. unfold handle_is. destruct (Z.eqb_spec y h) as [->|_]; done.
    + unfold handle_is. by rewrite Z.eqb_refl.
    + cbn. unfold set_sounds, engine. cbn. rewrite Hv.
      by rewrite insert_found_slot.
  - rewrite Ha. cbn. rewrite !length_app. cbn. lia.
  - unfold getSoundsCount. cbn. rewrite Hv, !length_app. done.
  - intros h' Hh'. unfold findByHandle. cbn.
    replace ((Some <$> pre) ++ Some a' :: post)
      with ((Some <$> (pre ++ [a'])) ++ post)
      by (by rewrite fmap_app, <- app_assoc).
    destruct (findByHandle_from_listed h' (pre ++ [a']) post 0)
      as (i & n & b & Hfind & Hi & Hn).
    { exists a'. split; [|done]. apply elem_of_app. right. left. }
    by exists i, n, b.
Qed.

Lemma stop_removes_single_entry_witness :
  let a := mkActiveSound (Wav_load Wav_new "a.wav" 0) "a.wav" [11; 12]%Z 5 in
  let b := mkActiveSound (Wav_load Wav_new "bb.wav" 0) "bb.wav" [] 6 in
  sounds two_sounds = (Some <$> []) ++ Some a :: [Some b] ∧
  Forall (λ c, 11%Z ∉ handle c) [] ∧
  handle a = [] ++ 11%Z :: [12%Z] ∧ (11%Z ∉ @nil Z) ∧ (11%Z ∉ [12%Z]) ∧
  stop 11 two_sounds
  = Ok (mkPlayer [Some (set_handle [12%Z] a); Some b] true
          (soloud two_sounds ++ [call_stop 11])).
Proof.
  intros a b.
  assert (11%Z ∉ @nil Z) as H1 by (intros H; elem_cases H).
  assert (11%Z ∉ [12%Z]) as H2 by (intros H; elem_cases H; discriminate).
  split; [reflexivity|]. split; [constructor|]. split; [reflexivity|].
  split; [exact H1|]. split; [exact H2|].
  exact (proj1 (stop_removes_single_entry 11 [] a [Some b] [] [12%Z] two_sounds
                  eq_refl (Forall_nil_2 _) eq_refl H1 H2)).
Defined.

(** ** Stopping a sound *)

(** Every spoken text is registered with hash 0.  With two of them,
    [stopSound 0] removes the first only: a sound with hash 0 is still
    registered, its voice 22 still resolves, and [getLength 0] asks the
    engine. *)
Lemma stopSound_shared_hash :
  run_all length_hash 0 8 9
    [Op_init 0; Op_textToSpeech "a" 0 0 21; Op_textToSpeech "b" 0 0 22]
    Player_new = Ok two_speeches ∧
  stopSound 0 two_speeches
  = Ok (mkPlayer [Some (mkActiveSound Wav_new "" [22%Z] 0)] true
          (soloud two_speeches ++ [call_stop_sound Wav_new])) ∧
  findByHandle 22
    (mkPlayer [Some (mkActiveSound Wav_new "" [22%Z] 0)] true
       (soloud two_speeches ++ [call_stop_sound Wav_new]))
  = Ok (Some (0, 0)) ∧
  ¬ stopSound_unloads 0 two_speeches.
Proof.
  split; [reflexivity|]. split; [reflexivity|].
  split; [reflexivity|].
  intros Hspec. destruct Hspec as (p' & Hstop & _ & Hgone & _).
  { eexists. split; [left|reflexivity]. }
  vm_compute in Hstop. injection Hstop as <-.
  specialize (Hgone (mkActiveSound Wav_new "" [22%Z] 0) 22%Z).
  discriminate Hgone; [right; left|reflexivity|left].
Qed.

(** With two spoken texts and loaded sounds after each, [stopSound 0]
    destroys both spoken sounds and leaves a null slot at the end. *)
Lemma stopSound_shared_hash_leaves_null_slot :
  run_all length_hash 0 8 9
    [Op_init 0; Op_textToSpeech "a" 0 0 21; Op_loadFile "x.wav" 0 0;
     Op_textToSpeech "b" 0 0 22; Op_loadFile "yy.wav" 0 0; Op_stopSound 0]
    Player_new
  = Ok (mkPlayer
          [Some (mkActiveSound (Wav_load Wav_new "x.wav" 0) "x.wav" [] 5);
           Some (mkActiveSound (Wav_load Wav_new "yy.wav" 0) "yy.wav" [] 6);
           None]
          true
          [call_init; call_setText "a"; call_play_speech; call_load "x.wav";
           call_setText "b"; call_play_speech; call_load "yy.wav";
           call_stop_sound Wav_new]).
Proof. reflexivity. Qed.

(** On the registry a refused file leaves, [stopSound] with a hash that no
    registered sound has scans up to the null slot and dereferences it. *)
Lemma stopSound_miss_after_refused_file :
  run_all length_hash 0 8 9
    [Op_init 0; Op_loadFile "missing.wav" 0 2] Player_new = Ok refused_file ∧
  ¬ registered 999 refused_file ∧
  stopSound 999 refused_file = UB.
Proof.
  split; [reflexivity|]. split; [|reflexivity].
  intros (a & Ha & Hk). elem_cases Ha; simplify_eq/=.
Qed.

(** C4 (amended) — For a hash [k] that exactly one registered sound has,
    in a registry whose slots all hold a sound: [stopSound k] stops the
    sound in the engine and removes it from [sounds]; afterwards the count
    is one less, no registered sound has hash [k], each handle of the
    removed sound that no other sound lists no longer resolves, and
    [getLength k] returns 0.0.  For a hash that no registered sound has,
    in a registry whose slots all hold a sound, [stopSound] leaves the
    player as it was. *)
Theorem stopSound_unloads_single (k : Z) (pre : list ActiveSound)
    (a : ActiveSound) (post : list ActiveSound) (p : Player) :
  sounds p = (Some <$> pre) ++ Some a :: (Some <$> post) →
  Forall (λ b, soundHash b ≠ k) pre → soundHash a = k →
  Forall (λ b, soundHash b ≠ k) post →
  let p' := mkPlayer (Some <$> (pre ++ post)) (mInited p)
              (soloud p ++ [call_stop_sound (sound a)]) in
  stopSound k p = Ok p' ∧
  S (getSoundsCount p') = getSoundsCount p ∧
  ¬ registered k p' ∧
  (∀ h, h ∈ handle a → Forall (λ b, h ∉ handle b) (pre ++ post) →
     findByHandle h p' = Ok None) ∧
  (∀ len, getLength k len p' = Ok (0%float, p')) ∧
  (∀ q, no_null_slot q → ¬ registered k q → stopSound k q = Ok q).
Proof.
  intros Hv Hpre Ha Hpost p'.
  assert (Forall (λ b, soundHash b ≠ k) (pre ++ post)) as Hrest
    by (by apply Forall_app).
  split; [|split; [|split; [|split; [|split]]]].
  - unfold stopSound. rewrite Hv.
    rewrite (find_if_hash_found k pre a _ Hpre Ha). cbn.
    destruct (decide _) as [Hlen|_].
    { rewrite length_app, length_fmap in Hlen. cbn in Hlen. lia. }
    rewrite lookup_found_slot. unfold set_sounds, engine. cbn. rewrite Hv.
    pose proof (erase_remove_if_unique (hash_is k) moved_ptr _ _ (Some a)
                  (hash_is_other k pre Hpre) (hash_is_other k post Hpost)
                  (hash_is_same k a Ha)) as Herase.
    unfold erase_remove_if, remove_if in Herase. rewrite Herase.
    cbn. unfold p'. by rewrite fmap_app.
  - unfold getSoundsCount. cbn. rewrite Hv, length_fmap, !length_app.
    cbn. rewrite !length_fmap. lia.
  - intros (b & Hb & Hbk). cbn in Hb.
    apply list_elem_of_fmap in Hb as (c & [= ->] & Hc).
    rewrite Forall_forall in Hrest. by apply (Hrest c).
  - intros h _ Hh. unfold findByHandle. cbn.
    by apply findByHandle_from_missing.
  - intros len. unfold getLength. cbn.
    rewrite (find_if_hash_missing k _ Hrest). cbn.
    by destruct (decide _).
  - intros q [l Hl]%no_null_slot_assets Hq. unfold stopSound.
    rewrite Hl, (find_if_hash_missing k l (not_registered_all k q l Hl Hq)). cbn.
    by destruct (decide _).
Qed.

Lemma stopSound_unloads_single_witness :
  let a := mkActiveSound (Wav_load Wav_new "a.wav" 0) "a.wav" [11; 12]%Z 5 in
  let b := mkActiveSound (Wav_load Wav_new "bb.wav" 0) "bb.wav" [] 6 in
  sounds two_sounds = (Some <$> []) ++ Some a :: (Some <$> [b]) ∧
  Forall (λ c, soundHash c ≠ 5%Z) [] ∧ soundHash a = 5%Z ∧
  Forall (λ c, soundHash c ≠ 5%Z) [b] ∧
  stopSound 5 two_sounds
  = Ok (mkPlayer [Some b] true
          (soloud two_sounds ++ [call_stop_sound (Wav_load Wav_new "a.wav" 0)])).
Proof.
  intros a b.
  assert (Forall (λ c, soundHash c ≠ 5%Z) [b]) as Hpost.
  { constructor; [discriminate|constructor]. }
  split; [reflexivity|]. split; [constructor|]. split; [reflexivity|].
  split; [exact Hpost|].
  exact (proj1 (stopSound_unloads_single 5 [] a [b] two_sounds
                  eq_refl (Forall_nil_2 _) eq_refl Hpost)).
Defined.

(** ** The check of [mInited] *)

(** On a player that was never started, [getPosition] forwards to the
    engine and returns the engine's answer; it reports no error. *)
Lemma getPosition_not_inited_forwards :
  playback_op (Op_getPosition 11 2.5) = true ∧
  mInited Player_new = false ∧
  run length_hash 0 8 9 (Op_getPosition 11 2.5) Player_new
  = Ok (R_seconds 2.5, mkPlayer [] false [call_getStreamPosition 11]) ∧
  ¬ fails_not_inited length_hash 0 8 9 (Op_getPosition 11 2.5) Player_new.
Proof.
  split; [reflexivity|]. split; [reflexivity|]. split; [reflexivity|].
  intros (r & p' & [= <- _] & Herr). discriminate.
Qed.

(** C5 (amended) — Of the playback operations, [textToSpeech] and [seek]
    (as [loadFile]) check the flag: called while [mInited] is false they
    return [backendNotInited] and leave the player and the engine untouched.
    The other operations ([play], [play3d], [stop], [stopSound],
    [pauseSwitch], [getPause], [setLooping], [getPosition], [getLength])
    neither read nor write [mInited]: they do on a player that is not
    started what they do on a started one, and none of them returns an
    error code. *)
Theorem inited_is_checked_by_three (std_hash : string → Z)
    (SO_NO_ERROR backendNotInited fileAlreadyLoaded : Z) (c : Call) (p : Player) :
  let run := run std_hash SO_NO_ERROR backendNotInited fileAlreadyLoaded in
  (checks_inited c = true → mInited p = false →
     ∃ r, run c p = Ok (r, p) ∧ error_of r = Some backendNotInited) ∧
  (checks_inited c = false → about_inited c = false →
     (∀ b, run c (set_inited b p)
           = outcome_map (λ '(r, p'), (r, set_inited b p')) (run c p)) ∧
     (∀ r p', run c p = Ok (r, p') → error_of r = None)).
Proof.
  intros run0. split.
  - intros Hc Hinit. destruct c; try discriminate; cbn.
    + unfold loadFile. rewrite Hinit. cbn. by eexists.
    + unfold textToSpeech. rewrite Hinit. cbn. by eexists.
    + unfold seek. rewrite Hinit. cbn. by eexists.
  - intros Hc Hs. destruct p as [v i t].
    destruct c; try discriminate; unfold run0; cbn;
      unfold pauseSwitch, getPause, play, stop, stopSound, getLength, play3d,
        setEchoFilter, debug, forwarded, setLooping, getPosition, isInited,
        getSoundsCount, findByHandle, handle_at, set_sounds, engine, set_inited;
      cbn;
      unfold mbind, outcome_bind; repeat (case_match; cbn);
      (split; [done|intros ?? [= <- _]; done]).
Qed.

Lemma inited_is_checked_by_three_witness :
  checks_inited (Op_seek 11 1.5 0) = true ∧ mInited Player_new = false ∧
  ∃ r, run length_hash 0 8 9 (Op_seek 11 1.5 0) Player_new = Ok (r, Player_new) ∧
       error_of r = Some 8%Z.
Proof.
  split; [reflexivity|]. split; [reflexivity|].
  exact (proj1 (inited_is_checked_by_three length_hash 0 8 9 (Op_seek 11 1.5 0)
                  Player_new) eq_refl eq_refl).
Defined.

(** ** The shape of a vector after [erase(remove_if(...))] *)

Section EraseRemoveShape.
Context {A : Type}.
Variable pred : A → outcome bool.
Variable moved : A → A.
(** the answers of the predicate on the elements at hand *)
Variable f : A → bool.

Lemma insert_at_end (mid rest : list A) (x y : A) :
  <[length mid := y]> (mid ++ x :: rest) = mid ++ y :: rest.
Proof. induction mid as [|z mid IH]; cbn; [done|]. by f_equal. Qed.

(** the two writes of [*first++ = std::move( *i)] *)
Lemma insert_shifted (kept mid rest : list A) (m x y : A) :
  <[length kept + length (m :: mid) := y]>
    (<[length kept := x]> (kept ++ (m :: mid) ++ x :: rest))
  = (kept ++ [x]) ++ (mid ++ [y]) ++ rest.
Proof.
  induction kept as [|z kept IH]; cbn.
  - f_equal. rewrite <- app_assoc. apply insert_at_end.
  - f_equal. apply IH.
Qed.

(** While the loop of [remove_if] runs over [rest], the kept elements of
    [rest] are written after [kept]; the places they leave, and the places
    of the removed ones, keep a moved-from value or the removed element. *)
Lemma remove_if_loop_shape (rest kept mid : list A) :
  mid ≠ [] →
  (∀ x, x ∈ rest → pred x = Ok (f x)) →
  remove_if_loop pred moved (length rest) (length kept + length mid) (length kept)
    (kept ++ mid ++ rest)
  = Ok (kept ++ filter (λ x, f x = false) rest
          ++ drop (length (filter (λ x, f x = false) rest))
               (mid ++ ((λ x, if f x then x else moved x) <$> rest)),
        length kept + length (filter (λ x, f x = false) rest)).
Proof.
  revert kept mid. induction rest as [|x rest IH]; intros kept mid Hmid Hrest.
  - cbn. rewrite !app_nil_r. do 2 f_equal. lia.
  - cbn [length remove_if_loop].
    replace ((kept ++ mid ++ x :: rest) !! (length kept + length mid))
      with (Some x); cycle 1.
    { symmetry. rewrite app_assoc.
      replace (length kept + length mid) with (length (kept ++ mid))
        by (rewrite length_app; lia).
      apply list_lookup_middle. done. }
    rewrite (Hrest x) by left. unfold mbind, outcome_bind. cbv beta iota.
    destruct (f x) eqn:Hfx.
    + rewrite filter_cons_False by (rewrite Hfx; done).
      specialize (IH kept (mid ++ [x])).
      rewrite length_app in IH. cbn [length] in IH.
      replace (length kept + (length mid + 1)) with (S (length kept + length mid))
        in IH by lia.
      rewrite <- !app_assoc in IH. cbn in IH. rewrite IH.
      * cbn. by rewrite Hfx.
      * by destruct mid.
      * intros y Hy. apply Hrest. by right.
    + rewrite filter_cons_True by done.
      destruct mid as [|m mid]; [done|].
      replace (<[length kept + length (m :: mid):=moved x]>
                 (<[length kept:=x]> (kept ++ (m :: mid) ++ x :: rest)))
        with ((kept ++ [x]) ++ (mid ++ [moved x]) ++ rest); cycle 1.
      { symmetry. apply insert_shifted. }
      cbn [length].
      specialize (IH (kept ++ [x]) (mid ++ [moved x])).
      rewrite !length_app in IH. cbn [length] in IH.
      replace (length kept + 1 + (length mid + 1))
        with (S (length kept + S (length mid))) in IH by lia.
      replace (length kept + 1) with (S (length kept)) in IH by lia.
      rewrite IH.
      * cbn. rewrite Hfx. rewrite <- !app_assoc. cbn. do 2 f_equal. lia.
      * by destruct mid.
      * intros y Hy. apply Hrest. by right.
Qed.

Lemma drop_cons_head (n : nat) (x : A) (l : list A) :
  n ≤ length l → ∃ y, drop n (x :: l) = y :: drop n l.
Proof.
  revert x l. induction n as [|n IH]; intros x l Hn.
  - by exists x.
  - destruct l as [|z l]; [cbn in Hn; lia|]. cbn. apply IH. cbn in Hn. lia.
Qed.

(** [v.erase(std::remove_if(...))] on a vector whose first match is [x0]:
    the elements before it stay, the kept elements after it follow, and
    the rest of the vector is what the shifts left behind, less one place. *)
Lemma erase_remove_if_shape (l1 l2 : list A) (x0 : A) :
  (∀ x, x ∈ l1 → pred x = Ok false) → pred x0 = Ok true →
  (∀ x, x ∈ l2 → pred x = Ok (f x)) →
  erase_remove_if pred moved (l1 ++ x0 :: l2)
  = Ok (l1 ++ filter (λ x, f x = false) l2
          ++ drop (length (filter (λ x, f x = false) l2))
               ((λ x, if f x then x else moved x) <$> l2)).
Proof.
  intros Hl1 Hx0 Hl2. unfold erase_remove_if, remove_if.
  rewrite find_if_first by done. cbn.
  rewrite length_app. cbn [length].
  destruct (decide (length l1 < length l1 + S (length l2))) as [_|?]; [|lia].
  replace (length l1 + S (length l2) - S (length l1)) with (length l2) by lia.
  pose proof (remove_if_loop_shape l2 l1 [x0]) as Hloop.
  cbn [length app] in Hloop.
  replace (length l1 + 1) with (S (length l1)) in Hloop by lia.
  rewrite Hloop by done. cbn.
  set (kept := filter (λ x, f x = false) l2).
  set (left_over := (λ x, if f x then x else moved x) <$> l2).
  assert (length kept ≤ length left_over) as Hlen.
  { unfold kept, left_over. rewrite length_fmap. apply length_filter. }
  destruct (drop_cons_head (length kept) x0 left_over Hlen) as [y ->].
  unfold erase. rewrite !length_app. cbn [length].
  destruct (decide _) as [_|?]; [|lia].
  f_equal. rewrite app_assoc.
  replace (length l1 + length kept) with (length (l1 ++ kept))
    by (rewrite length_app; lia).
  by rewrite delete_middle, <- app_assoc.
Qed.
End EraseRemoveShape.

(** ** More facts about lists *)

Lemma elem_of_drop_in {A : Type} (l : list A) (n : nat) (x : A) :
  x ∈ drop n l → x ∈ l.
Proof.
  intros (i & Hi)%list_elem_of_lookup. rewrite lookup_drop in Hi.
  apply list_elem_of_lookup. by eexists.
Qed.

Lemma filter_other_handles (h : Z) (l : list Z) :
  filter (λ x, (x =? h)%Z = false) l = filter (λ x, x ≠ h) l.
Proof. apply list_filter_iff. intros x. apply Z.eqb_neq. Qed.

Lemma fmap_copy_moved (h : Z) (l : list Z) :
  (λ x, if (x =? h)%Z then x else id x) <$> l = l.
Proof.
  rewrite <- (list_fmap_id l) at 2. apply list_fmap_ext.
  intros _ x _. by destruct (x =? h)%Z.
Qed.

(** ** [stop] on a handle listed any number of times *)

(** X1 — For the first registered sound that lists [h], every slot
    before it holding a sound that does not list [h], with the first [h]
    of its list at the end of [l1]: [stop h] keeps [l1], then the entries
    of the rest [l2] other than [h] in their order, then the tail of [l2]
    from the place where those entries end.  The list gets exactly one
    shorter, no handle other than [h] is lost and no handle is invented;
    the sound stays where it is and the other slots are untouched. *)
Theorem stop_any_multiplicity (h : Z) (pre : list ActiveSound) (a : ActiveSound)
    (post : list (option ActiveSound)) (l1 l2 : list Z) (p : Player) :
  sounds p = (Some <$> pre) ++ Some a :: post →
  Forall (λ b, h ∉ handle b) pre →
  handle a = l1 ++ h :: l2 → h ∉ l1 →
  let kept := filter (λ x, x ≠ h) l2 in
  let l' := l1 ++ kept ++ drop (length kept) l2 in
  stop h p
  = Ok (mkPlayer ((Some <$> pre) ++ Some (set_handle l' a) :: post) (mInited p)
          (soloud p ++ [call_stop h])) ∧
  S (length l') = length (handle a) ∧
  (∀ h', h' ≠ h → h' ∈ handle a → h' ∈ l') ∧
  (∀ h', h' ∈ l' → h' ∈ handle a).
Proof.
  intros Hv Hpre Ha Hl1 kept l'.
  assert (length kept ≤ length l2) as Hkept by apply length_filter.
  split; [|split; [|split]].
  - unfold stop, findByHandle. rewrite Hv.
    rewrite (findByHandle_from_found h pre a post l1 l2 0 Hpre Ha Hl1). cbn.
    rewrite lookup_found_slot, Ha.
    rewrite (erase_remove_if_shape (handle_is h) id (λ x, (x =? h)%Z) l1 l2 h).
    + rewrite filter_other_handles, fmap_copy_moved. cbn.
      unfold set_sounds, engine. cbn. rewrite Hv. by rewrite insert_found_slot.
    + intros y Hy. unfold handle_is. destruct (Z.eqb_spec y h) as [->|_]; done.
    + unfold handle_is. by rewrite Z.eqb_refl.
    + done.
  - rewrite Ha. unfold l'. rewrite !length_app, length_drop. cbn. lia.
  - intros h' Hne. rewrite Ha. unfold l'.
    intros [?|[?|Hin]%elem_of_cons]%elem_of_app; [|done|].
    + apply elem_of_app. by left.
    + apply elem_of_app. right. apply elem_of_app. left.
      by apply list_elem_of_filter.
  - intros h'. rewrite Ha. unfold l'.
    intros [?|[Hin|Hin]%elem_of_app]%elem_of_app; apply elem_of_app;
      [by left|right; right..].
    + by apply list_elem_of_filter in Hin as [_ ?].
    + by apply elem_of_drop_in in Hin.
Qed.

Lemma stop_any_multiplicity_witness :
  sounds replayed
  = (Some <$> [])
      ++ Some (mkActiveSound (Wav_load Wav_new "a.wav" 0) "a.wav" [5; 0; 0; 7]%Z 5)
      :: [] ∧
  Forall (λ b, 0%Z ∉ handle b) [] ∧
  [5; 0; 0; 7]%Z = [5%Z] ++ 0%Z :: [0; 7]%Z ∧ (0%Z ∉ [5%Z]) ∧
  stop 0 replayed
  = Ok (mkPlayer
          [Some (mkActiveSound (Wav_load Wav_new "a.wav" 0) "a.wav" [5; 7; 7]%Z 5)]
          true (soloud replayed ++ [call_stop 0])).
Proof.
  assert (0%Z ∉ [5%Z]) as H1 by (intros H; elem_cases H; discriminate).
  split; [reflexivity|]. split; [constructor|]. split; [reflexivity|].
  split; [exact H1|].
  exact (proj1 (stop_any_multiplicity 0 [] _ [] [5%Z] [0; 7]%Z replayed
                  eq_refl (Forall_nil_2 _) eq_refl H1)).
Defined.

Section FilterFacts.
Context {A : Type} (P : A → Prop) `{!∀ x, Decision (P x)}.

Lemma filter_all_in (l : list A) : Forall P l → filter P l = l.
Proof.
  induction 1 as [|x l Hx _ IH]; [done|]. by rewrite filter_cons_True, IH.
Qed.

Lemma filter_all_out (l : list A) : Forall (λ x, ¬ P x) l → filter P l = [].
Proof.
  induction 1 as [|x l Hx _ IH]; [done|]. by rewrite filter_cons_False.
Qed.

Lemma filter_full (l : list A) : length (filter P l) = length l → Forall P l.
Proof.
  induction l as [|x l IH]; [done|]. destruct (decide (P x)) as [Hx|Hx].
  - rewrite filter_cons_True by done. cbn. intros [= Hlen]. constructor; auto.
  - rewrite filter_cons_False by done. cbn. intros Hlen.
    pose proof (length_filter P l). lia.
Qed.
End FilterFacts.

Lemma length_omap_drop {A : Type} (l : list (option A)) (n : nat) :
  length (omap id (drop n l)) ≤ length (omap id l).
Proof.
  revert n. induction l as [|x l IH]; intros [|n]; cbn; try done.
  specialize (IH n). destruct x; cbn; lia.
Qed.

(** ** [stopSound] on a hash that any number of sounds share *)

Lemma filter_other_hashes (k : Z) (post : list ActiveSound) :
  filter (λ f : option ActiveSound,
            match f with Some b => (soundHash b =? k)%Z | None => false end = false)
    (Some <$> post)
  = Some <$> filter (λ b, soundHash b ≠ k) post.
Proof.
  induction post as [|b post IH]; [done|]. rewrite fmap_cons.
  destruct (Z.eqb_spec (soundHash b) k) as [Heq|Hne].
  - rewrite (filter_cons_False _ (Some b)), (filter_cons_False _ b); [done|auto|].
    apply Z.eqb_eq in Heq. by rewrite Heq.
  - rewrite (filter_cons_True _ (Some b)), (filter_cons_True _ b), fmap_cons;
      [by rewrite IH|done|].
    by apply Z.eqb_neq.
Qed.

Lemma fmap_left_in_slot (k : Z) (post : list ActiveSound) :
  (λ f : option ActiveSound,
     if match f with Some b => (soundHash b =? k)%Z | None => false end
     then f else moved_ptr f) <$> (Some <$> post)
  = left_in_slot k <$> post.
Proof.
  rewrite <- list_fmap_compose. apply list_fmap_ext. intros _ b _. cbn.
  unfold left_in_slot, moved_ptr.
  destruct (Z.eqb_spec (soundHash b) k); by destruct (decide _).
Qed.

(** what [stopSound] returns when the first sound with hash [k] is [a] and
    every slot holds a sound *)
Lemma stopSound_result (k : Z) (pre : list ActiveSound) (a : ActiveSound)
    (post : list ActiveSound) (p : Player) :
  sounds p = (Some <$> pre) ++ Some a :: (Some <$> post) →
  Forall (λ b, soundHash b ≠ k) pre → soundHash a = k →
  stopSound k p
  = Ok (mkPlayer
          ((Some <$> pre) ++ (Some <$> filter (λ b, soundHash b ≠ k) post)
             ++ drop (length (filter (λ b, soundHash b ≠ k) post))
                  (left_in_slot k <$> post))
          (mInited p) (soloud p ++ [call_stop_sound (sound a)])).
Proof.
  intros Hv Hpre Ha. unfold stopSound. rewrite Hv.
  rewrite (find_if_hash_found k pre a _ Hpre Ha).
  unfold mbind, outcome_bind. cbv beta iota.
  destruct (decide _) as [Hlen|_].
  { rewrite length_app, length_fmap in Hlen. cbn in Hlen. lia. }
  rewrite lookup_found_slot. unfold set_sounds, engine. cbn [sounds mInited soloud].
  rewrite Hv.
  rewrite (erase_remove_if_shape (hash_is k) moved_ptr
             (λ f, match f with Some b => (soundHash b =? k)%Z | None => false end)
             (Some <$> pre) (Some <$> post) (Some a)
             (hash_is_other k pre Hpre) (hash_is_same k a Ha)).
  - rewrite filter_other_hashes, fmap_left_in_slot, length_fmap. done.
  - by intros x (b & -> & _)%list_elem_of_fmap.
Qed.

Lemma left_in_slot_same_hash (k : Z) (post : list ActiveSound) (n : nat) :
  Forall (λ b, soundHash b = k) (omap id (drop n (left_in_slot k <$> post))).
Proof.
  apply Forall_forall. intros b (x & Hx & Hb)%list_elem_of_omap.
  cbn in Hb. subst x. apply elem_of_drop_in in Hx.
  apply list_elem_of_fmap in Hx as (c & Hc & _). unfold left_in_slot in Hc.
  destruct (decide (soundHash c = k)); by simplify_eq.
Qed.

Lemma omap_left_in_slot (k : Z) (post : list ActiveSound) :
  omap id (left_in_slot k <$> post) = filter (λ b, soundHash b = k) post.
Proof.
  induction post as [|b post IH]; [done|]. rewrite fmap_cons.
  unfold left_in_slot at 1. destruct (decide (soundHash b = k)).
  - rewrite filter_cons_True by done. cbn. f_equal. exact IH.
  - rewrite filter_cons_False by done. exact IH.
Qed.

(** the sounds of each hash before and after the erasure of [stopSound] *)
Lemma unloaded_with_hash (k : Z) (pre : list ActiveSound) (a : ActiveSound)
    (post : list ActiveSound) (p p' : Player) :
  sounds p = (Some <$> pre) ++ Some a :: (Some <$> post) →
  sounds p' = (Some <$> pre) ++ (Some <$> filter (λ b, soundHash b ≠ k) post)
                ++ drop (length (filter (λ b, soundHash b ≠ k) post))
                     (left_in_slot k <$> post) →
  Forall (λ b, soundHash b ≠ k) pre → soundHash a = k →
  (∀ k', k' ≠ k → with_hash k' p' = with_hash k' p) ∧
  length (with_hash k p') < length (with_hash k p).
Proof.
  intros Hv Hv' Hpre Ha. set (kept := filter (λ b, soundHash b ≠ k) post) in *.
  assert (∀ k', with_hash k' p
                = filter (λ b, soundHash b = k') (pre ++ a :: post)) as Hbefore.
  { intros k'. apply with_hash_assets. rewrite Hv. by rewrite fmap_app. }
  assert (∀ k', with_hash k' p'
                = filter (λ b, soundHash b = k') pre
                    ++ filter (λ b, soundHash b = k') kept
                    ++ filter (λ b, soundHash b = k')
                         (omap id (drop (length kept) (left_in_slot k <$> post))))
    as Hafter.
  { intros k'. unfold with_hash. rewrite Hv'.
    by rewrite !omap_app, !omap_id_assets, !filter_app. }
  pose proof (left_in_slot_same_hash k post (length kept)) as Hleft.
  split.
  - intros k' Hne. rewrite Hbefore, Hafter.
    rewrite filter_app, (filter_cons_False _ a) by congruence.
    f_equal. rewrite (filter_all_out _ (omap id _)), app_nil_r.
    + unfold kept. rewrite list_filter_filter. apply list_filter_iff.
      intros b. split; [by intros [? _]|]. intros Hb. split; [done|congruence].
    + eapply Forall_impl; [exact Hleft|]. cbn. congruence.
  - rewrite Hbefore, Hafter.
    rewrite filter_app, (filter_cons_True _ a) by done.
    rewrite (filter_all_out _ pre), (filter_all_out _ kept); cycle 1.
    { apply Forall_forall. by intros b [? _]%list_elem_of_filter. }
    { by eapply Forall_impl; [exact Hpre|]. }
    cbn. rewrite filter_all_in by done.
    pose proof (length_omap_drop (left_in_slot k <$> post) (length kept)) as Hle.
    rewrite omap_left_in_slot in Hle. lia.
Qed.

(** X2 — When the first sound with hash [k] is [a] and every slot holds a
    sound, [stopSound k] stops [a] in the engine and leaves: the sounds
    before [a], the later sounds of another hash in their order, and then
    the slots the shifts left behind (a later sound with hash [k], or a
    null slot).  The vector gets exactly one shorter, the sounds of every
    other hash stay registered in their order, and fewer sounds have hash
    [k] than before. *)
Theorem stopSound_any_multiplicity (k : Z) (pre : list ActiveSound)
    (a : ActiveSound) (post : list ActiveSound) (p : Player) :
  sounds p = (Some <$> pre) ++ Some a :: (Some <$> post) →
  Forall (λ b, soundHash b ≠ k) pre → soundHash a = k →
  let kept := filter (λ b, soundHash b ≠ k) post in
  let p' := mkPlayer
              ((Some <$> pre) ++ (Some <$> kept)
                 ++ drop (length kept) (left_in_slot k <$> post))
              (mInited p) (soloud p ++ [call_stop_sound (sound a)]) in
  stopSound k p = Ok p' ∧
  S (getSoundsCount p') = getSoundsCount p ∧
  (∀ k', k' ≠ k → with_hash k' p' = with_hash k' p) ∧
  length (with_hash k p') < length (with_hash k p).
Proof.
  intros Hv Hpre Ha kept p'.
  assert (length kept ≤ length post) as Hkept by apply length_filter.
  split; [by apply stopSound_result|]. split.
  - unfold getSoundsCount, p'. cbn.
    rewrite Hv, !length_app, !length_fmap, length_drop, length_fmap. cbn.
    rewrite length_fmap. lia.
  - by apply (unloaded_with_hash k pre a post p p').
Qed.

Lemma stopSound_any_multiplicity_witness :
  let t1 := mkActiveSound Wav_new "" [21%Z] 0 in
  let x := mkActiveSound (Wav_load Wav_new "x.wav" 0) "x.wav" [] 5 in
  let t2 := mkActiveSound Wav_new "" [22%Z] 0 in
  let y := mkActiveSound (Wav_load Wav_new "yy.wav" 0) "yy.wav" [] 6 in
  let p := mkPlayer [Some t1; Some x; Some t2; Some y] true [] in
  sounds p = (Some <$> []) ++ Some t1 :: (Some <$> [x; t2; y]) ∧
  Forall (λ b, soundHash b ≠ 0%Z) [] ∧ soundHash t1 = 0%Z ∧
  stopSound 0 p
  = Ok (mkPlayer [Some x; Some y; None] true [call_stop_sound Wav_new]).
Proof.
  intros t1 x t2 y p.
  split; [reflexivity|]. split; [constructor|]. split; [reflexivity|].
  exact (proj1 (stopSound_any_multiplicity 0 [] t1 [x; t2; y] p
                  eq_refl (Forall_nil_2 _) eq_refl)).
Defined.

Lemma drop_kept_no_null (k : Z) (post : list ActiveSound) :
  None ∉ drop (length (filter (λ b, soundHash b ≠ k) post))
           (left_in_slot k <$> post)
  ↔ ∃ post1 post2, post = post1 ++ post2 ∧
      Forall (λ b, soundHash b ≠ k) post1 ∧ Forall (λ b, soundHash b = k) post2.
Proof.
  set (n := length (filter (λ b, soundHash b ≠ k) post)).
  assert (n ≤ length post) as Hn by apply length_filter.
  split.
  - intros Hnull. exists (take n post), (drop n post).
    assert (Forall (λ b, soundHash b = k) (drop n post)) as Hdrop.
    { apply Forall_forall. intros b Hb.
      destruct (decide (soundHash b = k)) as [|Hne]; [done|].
      exfalso. apply Hnull. rewrite <- fmap_drop.
      apply list_elem_of_fmap. exists b. split; [|done].
      unfold left_in_slot. by destruct (decide _). }
    split; [by rewrite take_drop|]. split; [|done].
    apply (filter_full (λ b, soundHash b ≠ k)). rewrite length_take_le by done.
    assert (filter (λ b, soundHash b ≠ k) (drop n post) = []) as Hnone.
    { apply filter_all_out. eapply Forall_impl; [exact Hdrop|]. cbn. auto. }
    pose proof (f_equal length (filter_app (λ b, soundHash b ≠ k)
                                  (take n post) (drop n post))) as Hlen.
    rewrite take_drop, length_app, Hnone in Hlen. cbn in Hlen. unfold n at 2.
    lia.
  - intros (post1 & post2 & Hpost & H1 & H2) Hnull.
    assert (n = length post1) as Hn1.
    { unfold n. rewrite Hpost, filter_app, (filter_all_in _ post1 H1).
      rewrite (filter_all_out _ post2); [by rewrite app_nil_r|].
      eapply Forall_impl; [exact H2|]. cbn. auto. }
    rewrite Hn1, Hpost, fmap_app in Hnull.
    rewrite drop_app_length' in Hnull by (by rewrite length_fmap).
    apply list_elem_of_fmap in Hnull as (b & Hb & Hin).
    rewrite Forall_forall in H2. specialize (H2 b Hin).
    unfold left_in_slot in Hb. by destruct (decide _).
Qed.

(** X3 — When the first sound with hash [k] is [a] and every slot holds a
    sound, [stopSound k] leaves a null slot in [sounds] exactly when some
    sound of another hash is registered after a later sound with hash [k]:
    the vector stays free of null slots if and only if the sounds after
    [a] are sounds of other hashes followed by sounds with hash [k]. *)
Theorem stopSound_null_slot_criterion (k : Z) (pre : list ActiveSound)
    (a : ActiveSound) (post : list ActiveSound) (p : Player) :
  sounds p = (Some <$> pre) ++ Some a :: (Some <$> post) →
  Forall (λ b, soundHash b ≠ k) pre → soundHash a = k →
  ∃ p', stopSound k p = Ok p' ∧
    (no_null_slot p' ↔
     ∃ post1 post2, post = post1 ++ post2 ∧
       Forall (λ b, soundHash b ≠ k) post1 ∧ Forall (λ b, soundHash b = k) post2).
Proof.
  intros Hv Hpre Ha. eexists. split; [by apply stopSound_result|].
  rewrite <- drop_kept_no_null. unfold no_null_slot. cbn [sounds].
  rewrite app_assoc, <- fmap_app. split.
  - intros Hnull Hin. apply Hnull. apply elem_of_app. by right.
  - intros Hnull [Hin|Hin]%elem_of_app; [|done].
    by apply (assets_no_null_slot _ Hin).
Qed.

Lemma stopSound_null_slot_criterion_witness :
  let t1 := mkActiveSound Wav_new "" [21%Z] 0 in
  let x := mkActiveSound (Wav_load Wav_new "x.wav" 0) "x.wav" [] 5 in
  let t2 := mkActiveSound Wav_new "" [22%Z] 0 in
  let p := mkPlayer [Some t1; Some x; Some t2] true [] in
  sounds p = (Some <$> []) ++ Some t1 :: (Some <$> [x; t2]) ∧
  Forall (λ b, soundHash b ≠ 0%Z) [] ∧ soundHash t1 = 0%Z ∧
  ∃ p', stopSound 0 p = Ok p' ∧
    (no_null_slot p' ↔
     ∃ post1 post2, [x; t2] = post1 ++ post2 ∧
       Forall (λ b, soundHash b ≠ 0%Z) post1 ∧
       Forall (λ b, soundHash b = 0%Z) post2).
Proof.
  intros t1 x t2 p.
  split; [reflexivity|]. split; [constructor|]. split; [reflexivity|].
  exact (stopSound_null_slot_criterion 0 [] t1 [x; t2] p
           eq_refl (Forall_nil_2 _) eq_refl).
Defined.

(** ** What one call does to [sounds] *)

(** When the loop of [remove_if] comes to its end, the predicate has
    answered on every element from the place the loop started at. *)
Lemma remove_if_loop_answered {A : Type} (pred : A → outcome bool) (moved : A → A)
    (n i first : nat) (v : list A) (r : list A * nat) :
  remove_if_loop pred moved n i first v = Ok r →
  first < i → i + n = length v →
  ∀ j x, i ≤ j → v !! j = Some x → ∃ b, pred x = Ok b.
Proof.
  revert i first v. induction n as [|n IH]; intros i first v Hloop Hfirst Hlen j x Hj Hx.
  - apply lookup_lt_Some in Hx. lia.
  - cbn in Hloop. destruct (v !! i) as [y|] eqn:Hy; [|done].
    destruct (pred y) as [b|] eqn:Hb; [|done]. cbn in Hloop.
    destruct (decide (j = i)) as [->|Hne]; [by simplify_eq; eexists|].
    destruct b.
    + apply (IH (S i) first v Hloop ltac:(lia) ltac:(lia) j x ltac:(lia) Hx).
    + apply (IH (S i) (S first) _ Hloop ltac:(lia)
               ltac:(rewrite !length_insert; lia) j x ltac:(lia)).
      by rewrite !list_lookup_insert_ne by lia.
Qed.

(** [stopSound] only returns when every slot after the sound it found
    holds a sound *)
Lemma erase_remove_if_hash_answered (k : Z) (pre : list ActiveSound)
    (a : ActiveSound) (post v' : list (option ActiveSound)) :
  Forall (λ b, soundHash b ≠ k) pre → soundHash a = k →
  erase_remove_if (hash_is k) moved_ptr ((Some <$> pre) ++ Some a :: post) = Ok v' →
  None ∉ post.
Proof.
  intros Hpre Ha. unfold erase_remove_if, remove_if.
  rewrite (find_if_hash_found k pre a post Hpre Ha). cbn.
  rewrite length_app, length_fmap. cbn [length].
  destruct (decide _) as [_|?]; [|lia].
  destruct (remove_if_loop _ _ _ _ _ _) as [r|] eqn:Hloop; [|done].
  intros _ (j & Hj)%list_elem_of_lookup.
  destruct (remove_if_loop_answered _ _ _ _ _ _ _ Hloop) with (j := S (length pre) + j)
    (x := @None ActiveSound) as [b Hb]; try done.
  - lia.
  - rewrite length_app, length_fmap. cbn. lia.
  - lia.
  - rewrite lookup_app_r by (rewrite length_fmap; lia).
    rewrite length_fmap.
    by replace (S (length pre) + j - length pre) with (S j) by lia.
Qed.

Section StepFacts.
Variable std_hash : string → Z.
Variable SO_NO_ERROR : Z.
Variables backendNotInited fileAlreadyLoaded : Z.

(** Every call changes [sounds] in one of six ways: not at all, by
    clearing it, by appending a loaded sound, by appending a spoken text,
    by replacing the handles or the [Wav] of one sound, or by the erasure of
    [stopSound]. *)
Lemma run_sounds_step (c : Call) (p : Player) (r : Returned) (p' : Player) :
  run std_hash SO_NO_ERROR backendNotInited fileAlreadyLoaded c p = Ok (r, p') →
  sounds_step std_hash (sounds p) (sounds p').
Proof.
  destruct p as [v b0 t].
  destruct c as [result| |f hash result|h b|h b|k vol pan paused nh|h|k|h b|text h0 result ph|k len|h tm result|h pos|k x y z vx vy vz vol paused bus nh|h fid dl dc fl| | | |m];
    unfold run; cbn [sounds].
  - unfold init, dispose, engine. cbn.
    intros Hrun; repeat case_match; simplify_eq/=; constructor.
  - intros [= _ <-]. constructor.
  - unfold loadFile. cbn [sounds mInited]. destruct (negb b0); cbn.
    { intros [= _ <-]. constructor. }
    destruct (find_if _ v) as [n|] eqn:Hn; cbn; [|done].
    destruct (decide _) as [Hne|Heq%dec_stable]; cbn.
    { intros [= _ <-]. constructor. }
    destruct (find_if_hash_inv _ _ _ Hn)
      as [[_ (l & -> & Hl)]|(pre & a & post & -> & -> & _)]; cycle 1.
    { rewrite length_app, length_fmap in Heq. cbn in Heq. lia. }
    unfold set_sounds, engine. cbn.
    destruct (negb _); intros [= _ <-]; cbn.
    + rewrite <- app_assoc. cbn. apply step_loaded; auto.
    + apply step_loaded; auto.
  - unfold pauseSwitch, handle_at, findByHandle, engine. cbn.
    unfold mbind, outcome_bind.
    intros Hrun; repeat case_match; simplify_eq/=; constructor.
  - unfold getPause, handle_at, findByHandle, engine. cbn.
    unfold mbind, outcome_bind.
    intros Hrun; repeat case_match; simplify_eq/=; constructor.
  - unfold play, set_sounds, engine, set_handle. cbn. unfold mbind, outcome_bind.
    intros Hrun; repeat case_match; simplify_eq/=; by constructor.
  - unfold stop, findByHandle, set_sounds, engine, set_handle. cbn.
    unfold mbind, outcome_bind.
    intros Hrun; repeat case_match; simplify_eq/=; by constructor.
  - unfold stopSound. cbn [sounds].
    destruct (find_if (hash_is k) v) as [n|] eqn:Hn;
      unfold mbind, outcome_bind; cbv beta iota; [|done].
    destruct (decide _) as [->|Hlen]; [intros [= _ <-]; constructor|].
    destruct (find_if_hash_inv _ _ _ Hn)
      as [[-> _]|(pre & a & post & -> & -> & Hpre & Ha)]; [done|].
    rewrite lookup_found_slot.
    unfold set_sounds, engine. cbn [sounds mInited soloud].
    destruct (erase_remove_if _ _ _) as [v'|] eqn:Herase; [|done].
    pose proof (erase_remove_if_hash_answered k pre a post v' Hpre Ha Herase)
      as [post' ->]%no_null_slot_assets.
    pose proof (stopSound_result k pre a post'
                  (mkPlayer ((Some <$> pre) ++ Some a :: (Some <$> post')) b0 t)
                  eq_refl Hpre Ha) as Hres.
    unfold stopSound in Hres. cbn [sounds] in Hres. rewrite Hn in Hres.
    unfold mbind, outcome_bind in Hres. cbv beta iota in Hres.
    destruct (decide _) in Hres; [done|].
    rewrite lookup_found_slot in Hres.
    unfold set_sounds, engine in Hres. cbn [sounds mInited soloud] in Hres.
    rewrite Herase in Hres. injection Hres as ->.
    intros [= _ <-]. cbn. by apply step_unloaded.
  - intros [= _ <-]. constructor.
  - unfold textToSpeech, set_sounds, engine, set_handle, ActiveSound_new. cbn.
    destruct (negb b0); cbn; [intros [= _ <-]; constructor|].
    destruct (_ =? _)%Z; intros [= _ <-]; cbn.
    + rewrite length_app. cbn.
      replace (length v + 1 - 1) with (length v + 0) by lia.
      rewrite insert_app_r. cbn. apply step_spoken. by left.
    + rewrite <- app_assoc. cbn. apply step_spoken. by right.
  - unfold getLength, engine. cbn. unfold mbind, outcome_bind.
    intros Hrun; repeat case_match; simplify_eq/=; constructor.
  - unfold seek, engine. cbn.
    intros Hrun; repeat case_match; simplify_eq/=; constructor.
  - intros [= _ <-]. constructor.
  - unfold play3d, set_sounds, engine, set_handle. cbn. unfold mbind, outcome_bind.
    intros Hrun; repeat case_match; simplify_eq/=; by constructor.
  - unfold setEchoFilter, findByHandle, set_sounds, engine, set_sound. cbn.
    unfold mbind, outcome_bind.
    intros Hrun; repeat case_match; simplify_eq/=; by constructor.
  - intros [= _ <-]. constructor.
  - intros [= _ <-]. constructor.
  - unfold debug. cbn. unfold mbind, outcome_bind.
    intros Hrun; repeat case_match; simplify_eq/=; constructor.
  - intros [= _ <-]. constructor.
Qed.
End StepFacts.

(** ** What holds of [sounds] in every state the player reaches *)

(** replacing a sound by one of the same hash keeps the sounds of each hash *)
Lemma hash_count_insert (k : Z) (v : list (option ActiveSound)) (i : nat)
    (a a' : ActiveSound) :
  v !! i = Some (Some a) → soundHash a' = soundHash a →
  length (filter (λ b, soundHash b = k) (omap id (<[i := Some a']> v)))
  = length (filter (λ b, soundHash b = k) (omap id v)).
Proof.
  intros Hi Ha. pose proof (take_drop_middle v i (Some a) Hi) as Hv.
  rewrite insert_take_drop by (by eapply lookup_lt_Some).
  replace (omap id v) with (omap id (take i v ++ Some a :: drop (S i) v))
    by (by rewrite Hv).
  rewrite !omap_app, !filter_app, !length_app. f_equal.
  change (omap id (Some a' :: drop (S i) v)) with (a' :: omap id (drop (S i) v)).
  change (omap id (Some a :: drop (S i) v)) with (a :: omap id (drop (S i) v)).
  destruct (decide (soundHash a = k)) as [Hk|Hk].
  - rewrite !filter_cons_True by congruence. done.
  - rewrite !filter_cons_False by congruence. done.
Qed.

Section Invariants.
Variable std_hash : string → Z.
Variable SO_NO_ERROR : Z.
Variables backendNotInited fileAlreadyLoaded : Z.

Lemma sounds_step_one_per_hash (v v' : list (option ActiveSound)) :
  sounds_step std_hash v v' →
  (∀ k, k ≠ 0%Z → length (filter (λ b, soundHash b = k) (omap id v)) ≤ 1) →
  ∀ k, k ≠ 0%Z → length (filter (λ b, soundHash b = k) (omap id v')) ≤ 1.
Proof.
  intros Hstep Hv k Hk. specialize (Hv k Hk).
  destruct Hstep as [v|v|l f w tail Hl Htail|v hl tail Htail|v i a w hl Hi
                    |pre a post k0 Hpre Ha].
  - done.
  - cbn. lia.
  - assert (omap id tail = []) as Htl by (by destruct Htail as [-> | ->]).
    rewrite omap_id_assets in Hv.
    rewrite omap_app, omap_id_assets.
    change (omap id (Some ?x :: tail)) with (x :: omap id tail).
    rewrite Htl, filter_app, length_app.
    destruct (decide (newHash_of std_hash f = k)) as [Heq|Hne].
    + rewrite (filter_all_out _ l), filter_cons_True by (try done; by rewrite Heq in Hl).
      cbn. lia.
    + rewrite filter_cons_False by done. cbn. lia.
  - assert (omap id tail = []) as Htl by (by destruct Htail as [-> | ->]).
    rewrite omap_app.
    change (omap id (Some ?x :: tail)) with (x :: omap id tail).
    rewrite Htl, filter_app, length_app.
    rewrite filter_cons_False by (cbn; congruence). cbn. lia.
  - by rewrite (hash_count_insert k v i a
                  (mkActiveSound w (completeFileName a) hl (soundHash a)) Hi eq_refl).
  - destruct (unloaded_with_hash k0 pre a post
                (mkPlayer ((Some <$> pre) ++ Some a :: (Some <$> post)) true [])
                (mkPlayer ((Some <$> pre)
                             ++ (Some <$> filter (λ b, soundHash b ≠ k0) post)
                             ++ drop (length (filter (λ b, soundHash b ≠ k0) post))
                                  (left_in_slot k0 <$> post)) true [])
                eq_refl eq_refl Hpre Ha) as [Hother Hless].
    unfold with_hash in Hother, Hless. cbn [sounds] in Hother, Hless.
    destruct (decide (k = k0)) as [->|Hne]; [lia|].
    by rewrite (Hother k Hne).
Qed.

Lemma sounds_step_hash_of_name (v v' : list (option ActiveSound)) :
  sounds_step std_hash v v' →
  (∀ a, Some a ∈ v → hash_of_name std_hash a) →
  ∀ a, Some a ∈ v' → hash_of_name std_hash a.
Proof.
  intros Hstep Hv b Hb.
  destruct Hstep as [v|v|l f w tail Hl Htail|v hl tail Htail|v i a w hl Hi
                    |pre a post k0 Hpre Ha].
  - by apply Hv.
  - by apply elem_of_nil in Hb.
  - apply elem_of_app in Hb as [Hb|Hb]; [by apply Hv|].
    apply elem_of_cons in Hb as [[= ->]|Hb]; [by left|].
    destruct Htail as [-> | ->]; [by apply elem_of_nil in Hb|].
    by apply elem_of_cons in Hb as [?|?%elem_of_nil].
  - apply elem_of_app in Hb as [Hb|Hb]; [by apply Hv|].
    apply elem_of_cons in Hb as [[= ->]|Hb]; [by right|].
    destruct Htail as [-> | ->]; [by apply elem_of_nil in Hb|].
    by apply elem_of_cons in Hb as [?|?%elem_of_nil].
  - apply list_elem_of_lookup in Hb as [j Hj].
    destruct (decide (j = i)) as [->|Hne].
    + rewrite list_lookup_insert_eq in Hj by (by eapply lookup_lt_Some).
      injection Hj as <-.
      assert (hash_of_name std_hash a) as Hok
        by (apply Hv, list_elem_of_lookup; by exists i).
      exact Hok.
    + rewrite list_lookup_insert_ne in Hj by done.
      apply Hv, list_elem_of_lookup. by exists j.
  - apply Hv. rewrite !elem_of_app in Hb. rewrite elem_of_app, elem_of_cons.
    destruct Hb as [Hb|[Hb|Hb]]; [by left|right; right..].
    + apply list_elem_of_fmap in Hb as (c & [= ->] & Hc).
      apply list_elem_of_fmap. exists c. split; [done|].
      by apply list_elem_of_filter in Hc as [_ ?].
    + apply elem_of_drop_in in Hb.
      apply list_elem_of_fmap in Hb as (c & Hc & Hin). unfold left_in_slot in Hc.
      destruct (decide _); [|done]. injection Hc as ->.
      apply list_elem_of_fmap. by exists c.
Qed.

(** X4 — In every state a sequence of calls leads to, at most one
    registered sound has a given hash other than 0: [loadFile] registers a
    file only when no sound has its hash, and no other call gives a sound a
    hash.  (Hash 0 is the hash of every spoken text.) *)
Theorem reachable_one_sound_per_hash (p : Player) (k : Z) :
  reachable std_hash SO_NO_ERROR backendNotInited fileAlreadyLoaded p →
  k ≠ 0%Z → length (with_hash k p) ≤ 1.
Proof.
  intros Hp. revert k. induction Hp as [|p c r p' _ IH Hrun]; intros k Hk.
  - cbn. lia.
  - apply run_sounds_step in Hrun.
    by apply (sounds_step_one_per_hash _ _ Hrun IH).
Qed.

(** X5 — In every state a sequence of calls leads to, a registered sound
    either carries the hash of its own file name, cut to 32 bits, or it is a
    spoken text with no file name and hash 0; in both cases the hash is an
    [unsigned int]. *)
Theorem reachable_hash_of_name (p : Player) (a : ActiveSound) :
  reachable std_hash SO_NO_ERROR backendNotInited fileAlreadyLoaded p →
  Some a ∈ sounds p →
  hash_of_name std_hash a ∧ (0 ≤ soundHash a < 2 ^ 32)%Z.
Proof.
  intros Hp Ha.
  assert (hash_of_name std_hash a) as Hok.
  { revert a Ha. induction Hp as [|p c r p' _ IH Hrun]; intros a Ha.
    - by apply elem_of_nil in Ha.
    - apply run_sounds_step in Hrun.
      by apply (sounds_step_hash_of_name _ _ Hrun IH). }
  split; [done|]. destruct Hok as [->|[_ ->]]; [|lia].
  unfold newHash_of. apply Z.mod_pos_bound. lia.
Qed.

(** X6 — A player that is not started holds no sound: [getSoundsCount] is
    0, [play] and [play3d] return 0, [getLength] returns 0.0, [getPause]
    returns false, and [stop], [stopSound] and [pauseSwitch] do nothing;
    none of them reaches the engine. *)
Theorem not_started_is_empty (p : Player) :
  reachable std_hash SO_NO_ERROR backendNotInited fileAlreadyLoaded p →
  mInited p = false →
  getSoundsCount p = 0 ∧
  (∀ k volume pan paused nh, play k volume pan paused nh p = Ok (0%Z, p)) ∧
  (∀ k x y z vx vy vz vol paused bus nh,
     play3d k x y z vx vy vz vol paused bus nh p = Ok (0%Z, p)) ∧
  (∀ k len, getLength k len p = Ok (0%float, p)) ∧
  (∀ h b, getPause h b p = Ok (false, p)) ∧
  (∀ h, stop h p = Ok p) ∧ (∀ k, stopSound k p = Ok p) ∧
  (∀ h b, pauseSwitch h b p = Ok p).
Proof.
  intros Hp Hi.
  pose proof (reachable_not_inited_empty _ _ _ _ _ Hp Hi) as Hs.
  destruct p as [v b0 t]. cbn in Hs. subst v. by repeat split.
Qed.
End Invariants.

Lemma reachable_one_sound_per_hash_witness :
  reachable length_hash 0 8 9 two_sounds ∧ 5%Z ≠ 0%Z ∧
  length (with_hash 5 two_sounds) ≤ 1.
Proof.
  assert (5%Z ≠ 0%Z) as Hk by done.
  split; [exact two_sounds_reachable|]. split; [exact Hk|].
  exact (reachable_one_sound_per_hash length_hash 0 8 9 two_sounds 5
           two_sounds_reachable Hk).
Defined.

Lemma reachable_hash_of_name_witness :
  let a := mkActiveSound (Wav_load Wav_new "bb.wav" 0) "bb.wav" [] 6 in
  reachable length_hash 0 8 9 two_sounds ∧ Some a ∈ sounds two_sounds ∧
  hash_of_name length_hash a ∧ (0 ≤ soundHash a < 2 ^ 32)%Z.
Proof.
  intros a.
  assert (Some a ∈ sounds two_sounds) as Ha by (right; left).
  split; [exact two_sounds_reachable|]. split; [exact Ha|].
  exact (reachable_hash_of_name length_hash 0 8 9 two_sounds a
           two_sounds_reachable Ha).
Defined.

Lemma not_started_is_empty_witness :
  let p := dispose two_sounds in
  reachable length_hash 0 8 9 p ∧ mInited p = false ∧
  getSoundsCount p = 0 ∧
  ∀ k volume pan paused nh, play k volume pan paused nh p = Ok (0%Z, p).
Proof.
  intros p.
  assert (reachable length_hash 0 8 9 p) as Hp
    by exact (reachable_run length_hash 0 8 9 two_sounds Op_dispose R_void p
                two_sounds_reachable eq_refl).
  split; [exact Hp|]. split; [reflexivity|].
  pose proof (not_started_is_empty length_hash 0 8 9 p Hp eq_refl) as H.
  split; [exact (proj1 H)|exact (proj1 (proj2 H))].
Defined.

(** ** A null slot in [sounds] *)

Lemma first_null_slot (v : list (option ActiveSound)) :
  None ∈ v → ∃ pre post, v = (Some <$> pre) ++ None :: post.
Proof.
  induction v as [|[a|] v IH]; intros H.
  - by apply elem_of_nil in H.
  - apply elem_of_cons in H as [?|H]; [done|].
    destruct (IH H) as (pre & post & ->). by exists (a :: pre), post.
  - by exists [], v.
Qed.

Lemma insert_keeps_null_slot (v : list (option ActiveSound)) (i : nat)
    (a : ActiveSound) (x : option ActiveSound) :
  None ∈ v → v !! i = Some (Some a) → None ∈ <[i := x]> v.
Proof.
  intros [j Hj]%list_elem_of_lookup Hi. apply list_elem_of_lookup. exists j.
  rewrite list_lookup_insert_ne; [done|]. intros ->. congruence.
Qed.

(** [stopSound] scans the whole vector: to the end when it finds no sound,
    from the sound it found to the end when it finds one *)
Lemma stopSound_meets_null_slot (k : Z) (p : Player) :
  None ∈ sounds p → stopSound k p = UB.
Proof.
  destruct p as [v b0 t]. cbn [sounds]. intros Hnull. unfold stopSound. cbn [sounds].
  destruct (find_if (hash_is k) v) as [n|] eqn:Hn; [|done].
  unfold mbind, outcome_bind; cbv beta iota.
  destruct (find_if_hash_inv _ _ _ Hn)
    as [[-> (l & -> & _)]|(pre & a & post & -> & -> & Hpre & Ha)].
  - by apply assets_no_null_slot in Hnull.
  - destruct (decide _) as [Heq|_].
    { rewrite length_app, length_fmap in Heq. cbn in Heq. lia. }
    rewrite lookup_found_slot. unfold set_sounds, engine. cbn [sounds mInited soloud].
    destruct (erase_remove_if _ _ _) as [v'|] eqn:He; [|done]. exfalso.
    apply erase_remove_if_hash_answered in He; [|done..].
    apply elem_of_app in Hnull as [H|H]; [by apply assets_no_null_slot in H|].
    by apply elem_of_cons in H as [?|?].
Qed.

(** X7 — A null slot stays in [sounds] until the player is disposed of or
    started again: every other call that returns leaves a null slot behind
    when it met one. *)
Theorem null_slot_stays (std_hash : string → Z)
    (SO_NO_ERROR backendNotInited fileAlreadyLoaded : Z)
    (c : Call) (p : Player) (r : Returned) (p' : Player) :
  run std_hash SO_NO_ERROR backendNotInited fileAlreadyLoaded c p = Ok (r, p') →
  None ∈ sounds p →
  (c = Op_dispose ∨ ∃ result, c = Op_init result) ∨ None ∈ sounds p'.
Proof.
  intros Hrun Hnull. destruct p as [v b0 t]. cbn [sounds] in Hnull. revert Hrun.
  destruct c as [result| |f hash result|h b|h b|k vol pan paused nh|h|k|h b|text h0 result ph|k len|h tm result|h pos|k x y z vx vy vz vol paused bus nh|h fid dl dc fl| | | |m];
    unfold run.
  - intros _. left. right. by eexists.
  - intros _. left. by left.
  - unfold loadFile. cbn [sounds mInited]. destruct (negb b0); cbn.
    { intros [= _ <-]. by right. }
    destruct (find_if _ v) as [n|] eqn:Hn; cbn; [|done].
    destruct (decide _) as [Hne|Heq%dec_stable]; cbn.
    { intros [= _ <-]. by right. }
    destruct (find_if_hash_inv _ _ _ Hn)
      as [[_ (l & -> & Hl)]|(pre & a & post & -> & -> & _)].
    + by apply assets_no_null_slot in Hnull.
    + rewrite length_app, length_fmap in Heq. cbn in Heq. lia.
  - unfold pauseSwitch, handle_at, findByHandle, engine. cbn.
    unfold mbind, outcome_bind.
    intros Hrun; repeat case_match; simplify_eq/=; by right.
  - unfold getPause, handle_at, findByHandle, engine. cbn.
    unfold mbind, outcome_bind.
    intros Hrun; repeat case_match; simplify_eq/=; by right.
  - unfold play, set_sounds, engine, set_handle. cbn. unfold mbind, outcome_bind.
    intros Hrun; repeat case_match; simplify_eq/=; right; try done.
    by eapply insert_keeps_null_slot.
  - unfold stop, findByHandle, set_sounds, engine, set_handle. cbn.
    unfold mbind, outcome_bind.
    intros Hrun; repeat case_match; simplify_eq/=; right; try done.
    by eapply insert_keeps_null_slot.
  - by rewrite (stopSound_meets_null_slot k (mkPlayer v b0 t) Hnull).
  - intros [= _ <-]. by right.
  - unfold textToSpeech, set_sounds, engine, set_handle, ActiveSound_new. cbn.
    destruct (negb b0); cbn; [intros [= _ <-]; by right|].
    destruct (_ =? _)%Z; intros [= _ <-]; cbn; right.
    + rewrite length_app. cbn.
      replace (length v + 1 - 1) with (length v + 0) by lia.
      rewrite insert_app_r. cbn. apply elem_of_app. by left.
    + apply elem_of_app. by left; apply elem_of_app; left.
  - unfold getLength, engine. cbn. unfold mbind, outcome_bind.
    intros Hrun; repeat case_match; simplify_eq/=; by right.
  - unfold seek, engine. cbn.
    intros Hrun; repeat case_match; simplify_eq/=; by right.
  - intros [= _ <-]. by right.
  - unfold play3d, set_sounds, engine, set_handle. cbn. unfold mbind, outcome_bind.
    intros Hrun; repeat case_match; simplify_eq/=; right; try done.
    by eapply insert_keeps_null_slot.
  - unfold setEchoFilter, findByHandle, set_sounds, engine, set_sound. cbn.
    unfold mbind, outcome_bind.
    intros Hrun; repeat case_match; simplify_eq/=; right; try done.
    by eapply insert_keeps_null_slot.
  - intros [= _ <-]. by right.
  - intros [= _ <-]. by right.
  - unfold debug. cbn. unfold mbind, outcome_bind.
    intros Hrun; repeat case_match; simplify_eq/=; by right.
  - intros [= _ <-]. by right.
Qed.

Lemma null_slot_stays_witness :
  let a := mkActiveSound (Wav_load Wav_new "a.wav" 2) "a.wav" [] 5 in
  let p := mkPlayer [Some a; None] true [call_init; call_load "a.wav"] in
  let p' := mkPlayer [Some (set_handle [11%Z] a); None] true
              [call_init; call_load "a.wav"; call_play (sound a) 1 0 false 0] in
  run length_hash 0 8 9 (Op_play 5 1 0 false 11) p = Ok (R_handle 11, p') ∧
  None ∈ sounds p ∧
  ((Op_play 5 1 0 false 11 = Op_dispose ∨
    ∃ result, Op_play 5 1 0 false 11 = Op_init result) ∨ None ∈ sounds p').
Proof.
  intros a p p'.
  assert (None ∈ sounds p) as Hnull by (right; left).
  split; [reflexivity|]. split; [exact Hnull|].
  exact (null_slot_stays length_hash 0 8 9 (Op_play 5 1 0 false 11) p
           (R_handle 11) p' eq_refl Hnull).
Defined.

(** X8 — With a null slot in [sounds], every lookup that does not find
    what it looks for dereferences the null pointer: [stopSound] and [debug]
    always, [play], [play3d] and [getLength] for a hash no sound has,
    [stop], [pauseSwitch], [getPause] and [setEchoFilter] for a handle no
    sound lists, and [loadFile] for a file whose hash no sound has. *)
Theorem miss_meets_null_slot (std_hash : string → Z)
    (SO_NO_ERROR backendNotInited fileAlreadyLoaded : Z) (p : Player) :
  None ∈ sounds p →
  (∀ k, stopSound k p = UB) ∧ debug p = UB ∧
  (∀ k, ¬ registered k p →
     (∀ volume pan paused nh, play k volume pan paused nh p = UB) ∧
     (∀ x y z vx vy vz vol paused bus nh,
        play3d k x y z vx vy vz vol paused bus nh p = UB) ∧
     (∀ len, getLength k len p = UB)) ∧
  (∀ h, ¬ listed h p →
     stop h p = UB ∧ (∀ b, pauseSwitch h b p = UB) ∧
     (∀ b, getPause h b p = UB) ∧
     (∀ fid dl dc fl, setEchoFilter h fid dl dc fl p = UB)) ∧
  (mInited p = true → ∀ f hash result,
     ¬ registered (newHash_of std_hash f) p →
     loadFile std_hash SO_NO_ERROR backendNotInited fileAlreadyLoaded
       f hash result p = UB).
Proof.
  intros Hnull. split; [intros k; by apply stopSound_meets_null_slot|].
  destruct p as [v b0 t]. cbn [sounds] in Hnull.
  destruct (first_null_slot v Hnull) as (pre & post & ->).
  assert (∀ k, ¬ registered k (mkPlayer ((Some <$> pre) ++ None :: post) b0 t) →
            find_if (hash_is k) ((Some <$> pre) ++ None :: post) = UB) as Hfind.
  { intros k Hk. apply (scan_reaches_null_slot k 0%Z pre post).
    apply Forall_forall. intros b Hb Hbk. apply Hk. exists b. split; [|done].
    cbn. apply elem_of_app. left. apply list_elem_of_fmap. by exists b. }
  assert (∀ h, ¬ listed h (mkPlayer ((Some <$> pre) ++ None :: post) b0 t) →
            findByHandle h (mkPlayer ((Some <$> pre) ++ None :: post) b0 t) = UB)
    as Hscan.
  { intros h Hh. apply (scan_reaches_null_slot 0%Z h pre post).
    apply Forall_forall. intros b Hb Hbh. apply Hh. exists b. split; [|done].
    cbn. apply elem_of_app. left. apply list_elem_of_fmap. by exists b. }
  split; [|split; [|split]].
  - unfold debug. cbn [sounds]. rewrite forallb_app. cbn.
    by rewrite andb_false_r.
  - intros k Hk. specialize (Hfind k Hk).
    unfold play, play3d, getLength. cbn [sounds]. rewrite Hfind. done.
  - intros h Hh. specialize (Hscan h Hh).
    unfold stop, pauseSwitch, getPause, setEchoFilter. rewrite Hscan. done.
  - cbn [mInited]. intros -> f hash result Hk. specialize (Hfind _ Hk).
    unfold loadFile. cbn [sounds mInited negb]. rewrite Hfind. done.
Qed.

Lemma miss_meets_null_slot_witness :
  let a := mkActiveSound (Wav_load Wav_new "a.wav" 2) "a.wav" [] 5 in
  let p := mkPlayer [Some a; None] true [call_init; call_load "a.wav"] in
  None ∈ sounds p ∧ (∀ k, stopSound k p = UB) ∧ debug p = UB.
Proof.
  intros a p.
  assert (None ∈ sounds p) as Hnull by (right; left).
  split; [exact Hnull|].
  pose proof (miss_meets_null_slot length_hash 0 8 9 p Hnull) as H.
  split; [exact (proj1 H)|exact (proj1 (proj2 H))].
Defined.

(** ** What the operations return on a registry of a known shape *)

Lemma play_result (k : Z) (pre : list ActiveSound) (a : ActiveSound)
    (post : list (option ActiveSound)) (volume pan : float) (paused : bool)
    (nh : Z) (p : Player) :
  sounds p = (Some <$> pre) ++ Some a :: post →
  Forall (λ b, soundHash b ≠ k) pre → soundHash a = k →
  play k volume pan paused nh p
  = Ok (nh, mkPlayer ((Some <$> pre) ++ Some (set_handle (handle a ++ [nh]) a) :: post)
              (mInited p) (soloud p ++ [call_play (sound a) volume pan paused 0])).
Proof.
  intros Hv Hpre Ha. unfold play, set_sounds, engine. cbn [sounds mInited soloud].
  rewrite Hv, (find_if_hash_found k pre a post Hpre Ha).
  unfold mbind, outcome_bind. cbv beta iota.
  destruct (decide _) as [Hlen|_].
  { rewrite length_app, length_fmap in Hlen. cbn in Hlen. lia. }
  by rewrite lookup_found_slot, insert_found_slot.
Qed.

Lemma play3d_result (k : Z) (pre : list ActiveSound) (a : ActiveSound)
    (post : list (option ActiveSound)) (x y z vx vy vz vol : float)
    (paused : bool) (bus : Z) (nh : Z) (p : Player) :
  sounds p = (Some <$> pre) ++ Some a :: post →
  Forall (λ b, soundHash b ≠ k) pre → soundHash a = k →
  play3d k x y z vx vy vz vol paused bus nh p
  = Ok (nh, mkPlayer ((Some <$> pre) ++ Some (set_handle (handle a ++ [nh]) a) :: post)
              (mInited p)
              (soloud p ++ [call_play3d (sound a) x y z vx vy vz vol paused bus])).
Proof.
  intros Hv Hpre Ha. unfold play3d, set_sounds, engine. cbn [sounds mInited soloud].
  rewrite Hv, (find_if_hash_found k pre a post Hpre Ha).
  unfold mbind, outcome_bind. cbv beta iota.
  destruct (decide _) as [Hlen|_].
  { rewrite length_app, length_fmap in Hlen. cbn in Hlen. lia. }
  by rewrite lookup_found_slot, insert_found_slot.
Qed.

Lemma stop_result (h : Z) (pre : list ActiveSound) (a : ActiveSound)
    (post : list (option ActiveSound)) (l1 l2 : list Z) (p : Player) :
  sounds p = (Some <$> pre) ++ Some a :: post →
  Forall (λ b, h ∉ handle b) pre →
  handle a = l1 ++ h :: l2 → h ∉ l1 → h ∉ l2 →
  stop h p
  = Ok (mkPlayer ((Some <$> pre) ++ Some (set_handle (l1 ++ l2) a) :: post)
          (mInited p) (soloud p ++ [call_stop h])).
Proof.
  intros Hv Hpre Ha Hl1 Hl2. unfold stop, findByHandle. rewrite Hv.
  rewrite (findByHandle_from_found h pre a post l1 l2 0 Hpre Ha Hl1).
  unfold mbind, outcome_bind. cbv beta iota. cbn [Nat.add].
  unfold set_sounds, engine. cbn [sounds mInited soloud].
  rewrite Hv, lookup_found_slot, Ha.
  rewrite (erase_remove_if_unique (handle_is h) id l1 l2 h); cycle 1.
  - intros y Hy. unfold handle_is. destruct (Z.eqb_spec y h) as [->|_]; done.
  - intros y Hy. unfold handle_is. destruct (Z.eqb_spec y h) as [->|_]; done.
  - unfold handle_is. by rewrite Z.eqb_refl.
  - by rewrite insert_found_slot.
Qed.

Lemma loadFile_result (std_hash : string → Z)
    (SO_NO_ERROR backendNotInited fileAlreadyLoaded : Z)
    (f : string) (hash : Z) (l : list ActiveSound) (p : Player) :
  mInited p = true → sounds p = Some <$> l →
  Forall (λ b, soundHash b ≠ newHash_of std_hash f) l →
  loadFile std_hash SO_NO_ERROR backendNotInited fileAlreadyLoaded
    f hash SO_NO_ERROR p
  = Ok (SO_NO_ERROR, newHash_of std_hash f,
        mkPlayer ((Some <$> l)
                    ++ [Some (mkActiveSound (Wav_load Wav_new f SO_NO_ERROR) f []
                                (newHash_of std_hash f))])
          true (soloud p ++ [call_load f])).
Proof.
  intros Hi Hv Hl. unfold loadFile, set_sounds, engine.
  cbn [sounds mInited soloud]. rewrite Hi, Hv. cbn [negb].
  rewrite (find_if_hash_missing _ l Hl).
  unfold mbind, outcome_bind. cbv beta iota.
  destruct (decide _) as [Hne|_]; [done|].
  by rewrite Z.eqb_refl.
Qed.

(** neither lookup reads the [Wav] of a sound *)
Lemma lookups_ignore_wav (w : Wav) (pre : list ActiveSound) (a : ActiveSound)
    (post : list (option ActiveSound)) :
  (∀ h i, findByHandle_from h ((Some <$> pre) ++ Some (set_sound w a) :: post) i
          = findByHandle_from h ((Some <$> pre) ++ Some a :: post) i) ∧
  (∀ k, find_if (hash_is k) ((Some <$> pre) ++ Some (set_sound w a) :: post)
        = find_if (hash_is k) ((Some <$> pre) ++ Some a :: post)).
Proof.
  split.
  - intros h. induction pre as [|b pre IH]; intros i; [done|].
    cbn. by rewrite IH.
  - intros k. induction pre as [|b pre IH]; [done|].
    cbn. by rewrite IH.
Qed.

Lemma run_all_cons (std_hash : string → Z)
    (SO_NO_ERROR backendNotInited fileAlreadyLoaded : Z)
    (c : Call) (cs : list Call) (p p1 : Player) (r : Returned) :
  run std_hash SO_NO_ERROR backendNotInited fileAlreadyLoaded c p = Ok (r, p1) →
  run_all std_hash SO_NO_ERROR backendNotInited fileAlreadyLoaded (c :: cs) p
  = run_all std_hash SO_NO_ERROR backendNotInited fileAlreadyLoaded cs p1.
Proof. intros Hrun. cbn [run_all]. by rewrite Hrun. Qed.

Lemma set_handle_back (a : ActiveSound) (nh : Z) :
  set_handle ([] ++ []) (set_handle ([] ++ [nh]) a) = set_handle [] a ∧
  set_handle (handle a ++ []) (set_handle (handle a ++ [nh]) a) = a.
Proof. destruct a. unfold set_handle. cbn. by rewrite app_nil_r. Qed.

(** ** Round trips *)

(** X9 — [stop] undoes [play] and [play3d].  For the first sound with
    hash [k], every slot before it holding a sound of another hash: when
    the handle the engine returns is listed neither by that sound nor by a
    sound before it, stopping that handle gives back the registry as it was
    before the voice was started, whatever the slots after the sound hold. *)
Theorem play_then_stop (k nh : Z) (pre : list ActiveSound) (a : ActiveSound)
    (post : list (option ActiveSound)) (p : Player) :
  sounds p = (Some <$> pre) ++ Some a :: post →
  Forall (λ b, soundHash b ≠ k) pre → soundHash a = k →
  Forall (λ b, nh ∉ handle b) pre → nh ∉ handle a →
  (∀ volume pan paused, ∃ p1,
     play k volume pan paused nh p = Ok (nh, p1) ∧
     stop nh p1
     = Ok (mkPlayer (sounds p) (mInited p)
             (soloud p ++ [call_play (sound a) volume pan paused 0;
                           call_stop nh]))) ∧
  (∀ x y z vx vy vz vol paused bus, ∃ p1,
     play3d k x y z vx vy vz vol paused bus nh p = Ok (nh, p1) ∧
     stop nh p1
     = Ok (mkPlayer (sounds p) (mInited p)
             (soloud p ++ [call_play3d (sound a) x y z vx vy vz vol paused bus;
                           call_stop nh]))).
Proof.
  intros Hv Hpre Ha Hnh Hnha.
  assert (nh ∉ ([] : list Z)) as Hnil by (by intros ?%elem_of_nil).
  split.
  - intros volume pan paused. eexists. split; [by apply play_result|].
    rewrite (stop_result nh pre (set_handle (handle a ++ [nh]) a) post
               (handle a) []
               (mkPlayer ((Some <$> pre)
                            ++ Some (set_handle (handle a ++ [nh]) a) :: post)
                  (mInited p)
                  (soloud p ++ [call_play (sound a) volume pan paused 0]))
               eq_refl Hnh eq_refl Hnha Hnil).
    cbn [mInited soloud].
    by rewrite (proj2 (set_handle_back a nh)), Hv, <- app_assoc.
  - intros x y z vx vy vz vol paused bus. eexists.
    split; [by apply play3d_result|].
    rewrite (stop_result nh pre (set_handle (handle a ++ [nh]) a) post
               (handle a) []
               (mkPlayer ((Some <$> pre)
                            ++ Some (set_handle (handle a ++ [nh]) a) :: post)
                  (mInited p)
                  (soloud p ++ [call_play3d (sound a) x y z vx vy vz vol paused bus]))
               eq_refl Hnh eq_refl Hnha Hnil).
    cbn [mInited soloud].
    by rewrite (proj2 (set_handle_back a nh)), Hv, <- app_assoc.
Qed.

Lemma play_then_stop_witness :
  let a := mkActiveSound (Wav_load Wav_new "a.wav" 0) "a.wav" [11; 12]%Z 5 in
  let b := mkActiveSound (Wav_load Wav_new "bb.wav" 0) "bb.wav" [] 6 in
  sounds two_sounds = (Some <$> [a]) ++ Some b :: [] ∧
  Forall (λ c, soundHash c ≠ 6%Z) [a] ∧ soundHash b = 6%Z ∧
  Forall (λ c, 13%Z ∉ handle c) [a] ∧ (13%Z ∉ handle b) ∧
  ∀ volume pan paused, ∃ p1,
    play 6 volume pan paused 13 two_sounds = Ok (13%Z, p1) ∧
    stop 13 p1
    = Ok (mkPlayer (sounds two_sounds) (mInited two_sounds)
            (soloud two_sounds ++ [call_play (sound b) volume pan paused 0;
                                   call_stop 13])).
Proof.
  intros a b.
  assert (Forall (λ c, soundHash c ≠ 6%Z) [a]) as Hpre by (by repeat constructor).
  assert (Forall (λ c, 13%Z ∉ handle c) [a]) as Hnh.
  { repeat constructor. intros H. elem_cases H; discriminate. }
  assert (13%Z ∉ handle b) as Hnhb by (by intros ?%elem_of_nil).
  split; [reflexivity|]. split; [exact Hpre|]. split; [reflexivity|].
  split; [exact Hnh|]. split; [exact Hnhb|].
  exact (proj1 (play_then_stop 6 13 [a] b [] two_sounds
                  eq_refl Hpre eq_refl Hnh Hnhb)).
Defined.

(** X10 — Loading a file no sound has the hash of, playing it, stopping
    the voice and unloading the sound is a round trip for the registry: when
    the engine accepts the file and answers [play] with a handle no sound
    lists, the four calls all return and leave [sounds] as it was; the
    engine has seen the load, the play, the stop of the voice and the stop
    of the sound, in this order. *)
Theorem load_play_stop_unload (std_hash : string → Z)
    (SO_NO_ERROR backendNotInited fileAlreadyLoaded : Z)
    (f : string) (hash nh : Z) (volume pan : float) (paused : bool)
    (l : list ActiveSound) (p : Player) :
  mInited p = true → sounds p = Some <$> l →
  Forall (λ b, soundHash b ≠ newHash_of std_hash f) l →
  Forall (λ b, nh ∉ handle b) l →
  let k := newHash_of std_hash f in
  let w := Wav_load Wav_new f SO_NO_ERROR in
  run_all std_hash SO_NO_ERROR backendNotInited fileAlreadyLoaded
    [Op_loadFile f hash SO_NO_ERROR; Op_play k volume pan paused nh;
     Op_stop nh; Op_stopSound k] p
  = Ok (mkPlayer (sounds p) true
          (soloud p ++ [call_load f; call_play w volume pan paused 0;
                        call_stop nh; call_stop_sound w])).
Proof.
  intros Hi Hv Hl Hnh k w.
  assert (nh ∉ ([] : list Z)) as Hnil by (by intros ?%elem_of_nil).
  set (run0 := run std_hash SO_NO_ERROR backendNotInited fileAlreadyLoaded).
  set (p1 := mkPlayer ((Some <$> l) ++ [Some (mkActiveSound w f [] k)]) true
               (soloud p ++ [call_load f])).
  set (p2 := mkPlayer ((Some <$> l) ++ [Some (mkActiveSound w f [nh] k)]) true
               (soloud p1 ++ [call_play w volume pan paused 0])).
  set (p3 := mkPlayer ((Some <$> l) ++ [Some (mkActiveSound w f [] k)]) true
               (soloud p2 ++ [call_stop nh])).
  set (p4 := mkPlayer (Some <$> l) true (soloud p3 ++ [call_stop_sound w])).
  assert (run0 (Op_loadFile f hash SO_NO_ERROR) p = Ok (R_error_out SO_NO_ERROR k, p1))
    as H1.
  { unfold run0, run.
    by rewrite (loadFile_result std_hash SO_NO_ERROR backendNotInited
                  fileAlreadyLoaded f hash l p Hi Hv Hl). }
  assert (run0 (Op_play k volume pan paused nh) p1 = Ok (R_handle nh, p2)) as H2.
  { unfold run0, run.
    by rewrite (play_result k l (mkActiveSound w f [] k) [] volume pan paused nh
                  p1 eq_refl Hl eq_refl). }
  assert (run0 (Op_stop nh) p2 = Ok (R_void, p3)) as H3.
  { unfold run0, run.
    by rewrite (stop_result nh l (mkActiveSound w f [nh] k) [] [] [] p2
                  eq_refl Hnh eq_refl Hnil Hnil). }
  assert (run0 (Op_stopSound k) p3 = Ok (R_void, p4)) as H4.
  { unfold run0, run.
    rewrite (stopSound_result k l (mkActiveSound w f [] k) [] p3
               eq_refl Hl eq_refl).
    cbn. by rewrite app_nil_r. }
  rewrite (run_all_cons _ _ _ _ _ _ _ _ _ H1), (run_all_cons _ _ _ _ _ _ _ _ _ H2),
    (run_all_cons _ _ _ _ _ _ _ _ _ H3), (run_all_cons _ _ _ _ _ _ _ _ _ H4).
  subst p4 p3 p2 p1. cbn [run_all soloud]. rewrite Hv.
  do 2 f_equal. by rewrite <- !app_assoc.
Qed.

Lemma load_play_stop_unload_witness :
  let l := [mkActiveSound (Wav_load Wav_new "a.wav" 0) "a.wav" [11; 12]%Z 5;
            mkActiveSound (Wav_load Wav_new "bb.wav" 0) "bb.wav" [] 6] in
  let w := Wav_load Wav_new "ccc.wav" 0 in
  mInited two_sounds = true ∧ sounds two_sounds = Some <$> l ∧
  Forall (λ b, soundHash b ≠ newHash_of length_hash "ccc.wav") l ∧
  Forall (λ b, 13%Z ∉ handle b) l ∧
  run_all length_hash 0 8 9
    [Op_loadFile "ccc.wav" 0 0; Op_play (newHash_of length_hash "ccc.wav") 1 0 false 13;
     Op_stop 13; Op_stopSound (newHash_of length_hash "ccc.wav")] two_sounds
  = Ok (mkPlayer (sounds two_sounds) true
          (soloud two_sounds ++ [call_load "ccc.wav"; call_play w 1 0 false 0;
                                 call_stop 13; call_stop_sound w])).
Proof.
  intros l w.
  assert (Forall (λ b, soundHash b ≠ newHash_of length_hash "ccc.wav") l) as Hl
    by (by repeat constructor).
  assert (Forall (λ b, 13%Z ∉ handle b) l) as Hnh.
  { repeat constructor; intros H; elem_cases H; discriminate. }
  split; [reflexivity|]. split; [reflexivity|]. split; [exact Hl|].
  split; [exact Hnh|].
  exact (load_play_stop_unload length_hash 0 8 9 "ccc.wav" 0 13 1 0 false l
           two_sounds eq_refl eq_refl Hl Hnh).
Defined.

(** ** Files that share a hash *)



(** ** The entry of a spoken text *)

(** X12 — The entry [textToSpeech] registers has hash 0 and a [Wav] that
    was never loaded.  On a started player whose slots all hold sounds,
    none of hash 0, the
    value 0 (which [play] returns for a hash it does not find) is then a
    hash that is found: [play 0] starts the empty [Wav] and lists the
    engine's answer next to the voice of the speech, [getLength 0] asks the
    empty [Wav] for its length, and [stopSound 0] unregisters the entry. *)
Theorem speech_answers_hash_zero (SO_NO_ERROR backendNotInited : Z)
    (text : string) (h0 ph : Z) (l : list ActiveSound) (p : Player) :
  mInited p = true → sounds p = Some <$> l →
  Forall (λ b, soundHash b ≠ 0%Z) l →
  let p1 := mkPlayer ((Some <$> l) ++ [Some (mkActiveSound Wav_new "" [ph] 0)])
              true (soloud p ++ [call_setText text; call_play_speech]) in
  textToSpeech SO_NO_ERROR backendNotInited text h0 SO_NO_ERROR ph p
  = (SO_NO_ERROR, ph, p1) ∧
  (∀ volume pan paused nh,
     play 0 volume pan paused nh p1
     = Ok (nh, mkPlayer ((Some <$> l) ++ [Some (mkActiveSound Wav_new "" [ph; nh] 0)])
                 true (soloud p1 ++ [call_play Wav_new volume pan paused 0]))) ∧
  (∀ len, getLength 0 len p1
          = Ok (len, mkPlayer (sounds p1) true
                       (soloud p1 ++ [call_getLength Wav_new]))) ∧
  stopSound 0 p1
  = Ok (mkPlayer (Some <$> l) true (soloud p1 ++ [call_stop_sound Wav_new])).
Proof.
  intros Hi Hv Hl p1. split; [|split; [|split]].
  - unfold textToSpeech, set_sounds, engine, set_handle, ActiveSound_new.
    cbn [sounds mInited soloud handle sound completeFileName soundHash].
    rewrite Hi, Hv, Z.eqb_refl. cbn [negb]. rewrite length_app, length_fmap.
    cbn [length].
    replace (length l + 1 - 1) with (length (Some <$> l : list (option ActiveSound)) + 0)
      by (rewrite length_fmap; lia).
    rewrite insert_app_r. cbn. unfold p1. by rewrite <- app_assoc.
  - intros volume pan paused nh.
    by rewrite (play_result 0 l (mkActiveSound Wav_new "" [ph] 0) []
                  volume pan paused nh p1 eq_refl Hl eq_refl).
  - intros len. unfold getLength, engine, p1. cbn [sounds mInited soloud].
    rewrite (find_if_hash_found 0 l (mkActiveSound Wav_new "" [ph] 0) [] Hl eq_refl).
    unfold mbind, outcome_bind. cbv beta iota.
    destruct (decide _) as [Hlen|_].
    { rewrite length_app, length_fmap in Hlen. cbn in Hlen. lia. }
    by rewrite lookup_found_slot.
  - rewrite (stopSound_result 0 l (mkActiveSound Wav_new "" [ph] 0) [] p1
               eq_refl Hl eq_refl).
    cbn. by rewrite app_nil_r.
Qed.

Lemma speech_answers_hash_zero_witness :
  let l := [mkActiveSound (Wav_load Wav_new "a.wav" 0) "a.wav" [11; 12]%Z 5;
            mkActiveSound (Wav_load Wav_new "bb.wav" 0) "bb.wav" [] 6] in
  let p1 := mkPlayer ((Some <$> l) ++ [Some (mkActiveSound Wav_new "" [21%Z] 0)])
              true (soloud two_sounds ++ [call_setText "hi"; call_play_speech]) in
  mInited two_sounds = true ∧ sounds two_sounds = Some <$> l ∧
  Forall (λ b, soundHash b ≠ 0%Z) l ∧
  textToSpeech 0 8 "hi" 0 0 21 two_sounds = (0%Z, 21%Z, p1) ∧
  stopSound 0 p1
  = Ok (mkPlayer (Some <$> l) true (soloud p1 ++ [call_stop_sound Wav_new])).
Proof.
  intros l p1.
  assert (Forall (λ b, soundHash b ≠ 0%Z) l) as Hl by (by repeat constructor).
  split; [reflexivity|]. split; [reflexivity|]. split; [exact Hl|].
  pose proof (speech_answers_hash_zero 0 8 "hi" 0 21 l two_sounds
                eq_refl eq_refl Hl) as H.
  split; [exact (proj1 H)|exact (proj2 (proj2 (proj2 H)))].
Defined.

(** ** Operations on a voice *)

(** X13 — For a handle some sound lists, [pauseSwitch] asks the engine
    for the pause state of that very handle and sets the opposite state on
    it, and [getPause] returns the engine's answer for it; neither changes
    [sounds] or [mInited]. *)
Theorem pause_acts_on_handle (h : Z) (b : bool) (p : Player) :
  no_null_slot p → listed h p →
  pauseSwitch h b p
  = Ok (mkPlayer (sounds p) (mInited p)
          (soloud p ++ [call_getPause h; call_setPause h (negb b)])) ∧
  getPause h b p
  = Ok (b, mkPlayer (sounds p) (mInited p) (soloud p ++ [call_getPause h])).
Proof.
  intros [l Hl]%no_null_slot_assets (a & Ha & Hh).
  rewrite Hl in Ha. apply list_elem_of_fmap in Ha as (a' & [= <-] & Ha).
  destruct (findByHandle_from_listed h l [] 0) as (i & n & c & Hfind & Hi & Hn);
    [by exists a|].
  rewrite app_nil_r in Hfind, Hi. rewrite <- Hl in Hfind, Hi.
  unfold pauseSwitch, getPause, findByHandle, handle_at. rewrite Hfind.
  unfold mbind, outcome_bind. cbv beta iota. cbn [Nat.add].
  rewrite Hi, Hn. unfold engine. cbn [sounds mInited soloud].
  by rewrite <- app_assoc.
Qed.

Lemma pause_acts_on_handle_witness :
  no_null_slot two_sounds ∧ listed 12 two_sounds ∧
  pauseSwitch 12 true two_sounds
  = Ok (mkPlayer (sounds two_sounds) (mInited two_sounds)
          (soloud two_sounds ++ [call_getPause 12; call_setPause 12 (negb true)])) ∧
  getPause 12 true two_sounds
  = Ok (true, mkPlayer (sounds two_sounds) (mInited two_sounds)
                (soloud two_sounds ++ [call_getPause 12])).
Proof.
  assert (listed 12 two_sounds) as Hh.
  { eexists. split; [left|]. right. left. }
  split; [exact two_sounds_no_null_slot|]. split; [exact Hh|].
  exact (pause_acts_on_handle 12 true two_sounds two_sounds_no_null_slot Hh).
Defined.

(** X14 — [setEchoFilter] sets the filter on the [Wav] of the first sound
    that lists the handle (every slot before it holding a sound that does
    not list it), not on the voice: the sound keeps its file name, its
    handles and its hash, every lookup by handle or by hash answers as
    before, and, when no sound before it has its hash, a voice of the sound
    started afterwards plays the filtered [Wav]. *)
Theorem setEchoFilter_first_lister (h fid : Z) (dl dc fl : float)
    (pre : list ActiveSound) (a : ActiveSound) (post : list (option ActiveSound))
    (p : Player) :
  sounds p = (Some <$> pre) ++ Some a :: post →
  Forall (λ b, h ∉ handle b) pre → h ∈ handle a →
  let w := Wav_setFilter (sound a) fid dl dc fl in
  let p' := mkPlayer ((Some <$> pre) ++ Some (set_sound w a) :: post) (mInited p)
              (soloud p ++ [call_setFilter (sound a) fid dl dc fl]) in
  setEchoFilter h fid dl dc fl p = Ok p' ∧
  (∀ h', findByHandle h' p' = findByHandle h' p) ∧
  (∀ k, find_if (hash_is k) (sounds p') = find_if (hash_is k) (sounds p)) ∧
  (Forall (λ b, soundHash b ≠ soundHash a) pre →
   ∀ volume pan paused nh, ∃ p'',
     play (soundHash a) volume pan paused nh p' = Ok (nh, p'') ∧
     soloud p'' = soloud p' ++ [call_play w volume pan paused 0]).
Proof.
  intros Hv Hpre Ha w p'.
  pose proof (find_in_handles_inv h (handle a) 0) as Hinv'.
  destruct (find_in_handles h (handle a) 0) as [n|]; [|done].
  destruct Hinv' as (l1 & l2 & Hl & Hl1 & _).
  split; [|split; [|split]].
  - unfold setEchoFilter, findByHandle. rewrite Hv.
    rewrite (findByHandle_from_found h pre a post l1 l2 0 Hpre Hl Hl1).
    unfold mbind, outcome_bind. cbv beta iota. cbn [Nat.add].
    unfold set_sounds, engine. cbn [sounds mInited soloud].
    by rewrite Hv, lookup_found_slot, insert_found_slot.
  - intros h'. unfold findByHandle, p'. cbn [sounds]. rewrite Hv.
    apply (lookups_ignore_wav w pre a post).
  - intros k. unfold p'. cbn [sounds]. rewrite Hv.
    apply (lookups_ignore_wav w pre a post).
  - intros Hhash volume pan paused nh. eexists. split.
    + by apply (play_result (soundHash a) pre (set_sound w a) post volume pan
                  paused nh p' eq_refl Hhash eq_refl).
    + done.
Qed.

Lemma setEchoFilter_first_lister_witness :
  let a := mkActiveSound (Wav_load Wav_new "a.wav" 0) "a.wav" [11; 12]%Z 5 in
  let b := mkActiveSound (Wav_load Wav_new "bb.wav" 0) "bb.wav" [] 6 in
  let w := Wav_setFilter (sound a) 0 0.5 0.5 0 in
  sounds two_sounds = (Some <$> []) ++ Some a :: [Some b] ∧
  Forall (λ c, 12%Z ∉ handle c) [] ∧ 12%Z ∈ handle a ∧
  setEchoFilter 12 0 0.5 0.5 0 two_sounds
  = Ok (mkPlayer ((Some <$> []) ++ Some (set_sound w a) :: [Some b])
          (mInited two_sounds)
          (soloud two_sounds ++ [call_setFilter (sound a) 0 0.5 0.5 0])).
Proof.
  intros a b w.
  assert (12%Z ∈ handle a) as Ha by (right; left).
  split; [reflexivity|]. split; [exact (Forall_nil_2 _)|]. split; [exact Ha|].
  exact (proj1 (setEchoFilter_first_lister 12 0 0.5 0.5 0 [] a [Some b] two_sounds
                  eq_refl (Forall_nil_2 _) Ha)).
Defined.

(** ** Starting the player *)

(** X15 — [init] always leaves an empty registry: a started player is
    disposed of first, and a player that is not started holds no sound.
    The player is started afterwards exactly when the engine answered
    [SO_NO_ERROR], which is exactly when that code is returned; otherwise
    [backendNotInited] is returned.  A refused second [init] therefore
    leaves a player that was started disposed of. *)
Theorem init_leaves_empty (std_hash : string → Z)
    (SO_NO_ERROR backendNotInited fileAlreadyLoaded : Z)
    (result : Z) (p : Player) :
  reachable std_hash SO_NO_ERROR backendNotInited fileAlreadyLoaded p →
  backendNotInited ≠ SO_NO_ERROR →
  ∃ e p', init SO_NO_ERROR backendNotInited result p = (e, p') ∧
    sounds p' = [] ∧
    (mInited p' = true ↔ result = SO_NO_ERROR) ∧
    (e = SO_NO_ERROR ↔ mInited p' = true) ∧
    (e = SO_NO_ERROR ∨ e = backendNotInited) ∧
    soloud p' = soloud p ++ (if mInited p then [call_deinit; call_init]
                             else [call_init]).
Proof.
  intros Hp Hne.
  assert (mInited p = false → sounds p = []) as Hempty
    by apply (reachable_not_inited_empty _ _ _ _ _ Hp).
  destruct p as [v b0 t]. cbn [mInited sounds soloud] in *.
  unfold init, dispose, engine. cbn [mInited sounds soloud].
  destruct b0; cbn [mInited sounds soloud];
    destruct (Z.eqb_spec result SO_NO_ERROR) as [->|Hres];
    eexists _, _; (split; [reflexivity|]); cbn [mInited sounds soloud];
    rewrite <- ?app_assoc; repeat split; auto; try done.
Qed.

Lemma init_leaves_empty_witness :
  reachable length_hash 0 8 9 two_sounds ∧ 8%Z ≠ 0%Z ∧
  ∃ e p', init 0 8 2 two_sounds = (e, p') ∧
    sounds p' = [] ∧
    (mInited p' = true ↔ 2%Z = 0%Z) ∧
    (e = 0%Z ↔ mInited p' = true) ∧
    (e = 0%Z ∨ e = 8%Z) ∧
    soloud p' = soloud two_sounds ++ (if mInited two_sounds
                                      then [call_deinit; call_init]
                                      else [call_init]).
Proof.
  assert (8%Z ≠ 0%Z) as Hne by done.
  split; [exact two_sounds_reachable|]. split; [exact Hne|].
  exact (init_leaves_empty length_hash 0 8 9 2 two_sounds two_sounds_reachable Hne).
Defined.

(** ** The text of an error code *)

(** X16 — The refusals of the player and their texts.  The nine labels of
    the switch of [getErrorString] are distinct; when [fileAlreadyLoaded] is
    none of them: a call of [loadFile], [textToSpeech] or [seek] on a player
    that is not started, and an [init] the engine refuses, return a code
    whose text is "Player not yet initialized", and [loadFile] for a file
    whose hash is registered returns a code whose text is "Other error". *)
Theorem refusals_error_strings (std_hash : string → Z)
    (noError invalidParameter fileNotFound fileLoadFailed dllNotFound
       outOfMemory notImplemented backendNotInited unknownError
       fileAlreadyLoaded SO_NO_ERROR : Z) :
  let text := getErrorString noError invalidParameter fileNotFound fileLoadFailed
                dllNotFound outOfMemory notImplemented backendNotInited
                unknownError in
  backendNotInited ∉ [noError; invalidParameter; fileNotFound; fileLoadFailed;
                      dllNotFound; outOfMemory; notImplemented] →
  fileAlreadyLoaded ∉ [noError; invalidParameter; fileNotFound; fileLoadFailed;
                       dllNotFound; outOfMemory; notImplemented;
                       backendNotInited; unknownError] →
  (∀ c p r p', checks_inited c = true → mInited p = false →
     run std_hash SO_NO_ERROR backendNotInited fileAlreadyLoaded c p = Ok (r, p') →
     ∃ e, error_of r = Some e ∧ text e = "Player not yet initialized"%string) ∧
  (∀ result p, result ≠ SO_NO_ERROR →
     text (fst (init SO_NO_ERROR backendNotInited result p))
     = "Player not yet initialized"%string) ∧
  (∀ f hash result p r p', mInited p = true →
     registered (newHash_of std_hash f) p →
     run std_hash SO_NO_ERROR backendNotInited fileAlreadyLoaded
       (Op_loadFile f hash result) p = Ok (r, p') →
     ∃ e, error_of r = Some e ∧ text e = "Other error"%string).
Proof.
  intros text Hb Hf.
  assert (text backendNotInited = "Player not yet initialized"%string) as Htext.
  { rewrite !not_elem_of_cons in Hb. destruct Hb as (? & ? & ? & ? & ? & ? & ? & _).
    unfold text, getErrorString.
    repeat match goal with
           | H : _ ≠ _ |- _ => apply Z.eqb_neq in H; rewrite H
           end.
    by rewrite Z.eqb_refl. }
  assert (text fileAlreadyLoaded = "Other error"%string) as Hother.
  { rewrite !not_elem_of_cons in Hf.
    destruct Hf as (? & ? & ? & ? & ? & ? & ? & ? & ? & _).
    unfold text, getErrorString.
    repeat match goal with
           | H : _ ≠ _ |- _ => apply Z.eqb_neq in H; rewrite H
           end.
    done. }
  split; [|split].
  - intros c p r p' Hc Hi. destruct c; try discriminate; unfold run.
    + unfold loadFile. rewrite Hi. cbn. intros [= <- _]. by eexists.
    + unfold textToSpeech. rewrite Hi. cbn. intros [= <- _]. by eexists.
    + unfold seek. rewrite Hi. cbn. intros [= <- _]. by eexists.
  - intros result p Hres. unfold init.
    destruct (Z.eqb_spec result SO_NO_ERROR); [done|]. exact Htext.
  - intros f hash result [v b0 t] r p' Hi (a & Ha & Hk). cbn in Hi, Ha. subst b0.
    unfold run, loadFile. cbn [sounds mInited negb].
    destruct (find_if _ v) as [n|] eqn:Hn; [|done].
    unfold mbind, outcome_bind. cbv beta iota.
    destruct (decide _) as [_|Heq%dec_stable].
    { intros [= <- _]. by eexists. }
    destruct (find_if_hash_inv _ _ _ Hn)
      as [[_ (l & -> & Hl)]|(pre & a0 & post & -> & -> & _)].
    + apply list_elem_of_fmap in Ha as (a' & [= <-] & Ha).
      by apply (proj1 (Forall_forall _ _) Hl) in Ha.
    + rewrite length_app, length_fmap in Heq. cbn in Heq. lia.
Qed.

Lemma refusals_error_strings_witness :
  let text := getErrorString 0 1 2 3 4 5 6 8 7 in
  (8%Z ∉ [0; 1; 2; 3; 4; 5; 6]%Z) ∧ (9%Z ∉ [0; 1; 2; 3; 4; 5; 6; 8; 7]%Z) ∧
  (∀ result p, result ≠ 0%Z →
     text (fst (init 0 8 result p)) = "Player not yet initialized"%string).
Proof.
  intros text.
  assert (8%Z ∉ [0; 1; 2; 3; 4; 5; 6]%Z) as Hb
    by (intros H; elem_cases H; discriminate).
  assert (9%Z ∉ [0; 1; 2; 3; 4; 5; 6; 8; 7]%Z) as Hf
    by (intros H; elem_cases H; discriminate).
  split; [exact Hb|]. split; [exact Hf|].
  exact (proj1 (proj2 (refusals_error_strings length_hash 0 1 2 3 4 5 6 8 7 9 0
                         Hb Hf))).
Defined.

(** ** Calls on a registry without null slots *)

Lemma run_defined_witness :
  no_null_slot two_sounds ∧
  ∃ r p', run length_hash 0 8 9 (Op_stopSound 5) two_sounds = Ok (r, p').
Proof.
  split; [exact two_sounds_no_null_slot|].
  exact (run_defined length_hash 0 8 9 (Op_stopSound 5) two_sounds
           two_sounds_no_null_slot).
Defined.

Lemma no_null_slot_kept_witness :
  let p' := mkPlayer
              [Some (mkActiveSound (Wav_load Wav_new "bb.wav" 0) "bb.wav" [] 6)]
              true
              (soloud two_sounds ++ [call_stop_sound (Wav_load Wav_new "a.wav" 0)]) in
  no_null_slot two_sounds ∧
  run length_hash 0 8 9 (Op_stopSound 5) two_sounds = Ok (R_void, p') ∧
  engine_refuses 0 (Op_stopSound 5) = false ∧
  (∀ k, Op_stopSound 5 = Op_stopSound k → length (with_hash k two_sounds) ≤ 1) ∧
  no_null_slot p'.
Proof.
  intros p'.
  assert (∀ k, Op_stopSound 5 = Op_stopSound k → length (with_hash k two_sounds) ≤ 1)
    as Hk.
  { intros k [= <-]. vm_compute. lia. }
  split; [exact two_sounds_no_null_slot|]. split; [reflexivity|].
  split; [reflexivity|]. split; [exact Hk|].
  exact (no_null_slot_kept length_hash 0 8 9 (Op_stopSound 5) two_sounds R_void p'
           two_sounds_no_null_slot eq_refl eq_refl Hk).
Defined.

(** ** Disposing of the player *)

(** X19 — [dispose] brings any player, also one with null slots, to a
    state in which every call returns: the registry is empty and stays
    empty over the next call, and only an [init] that the engine accepts
    starts the player again. *)
Theorem dispose_recovers (std_hash : string → Z)
    (SO_NO_ERROR backendNotInited fileAlreadyLoaded : Z) (c : Call) (p : Player) :
  ∃ r p',
    run std_hash SO_NO_ERROR backendNotInited fileAlreadyLoaded c (dispose p)
    = Ok (r, p') ∧
    sounds p' = [] ∧
    (mInited p' = true ↔ ∃ result, c = Op_init result ∧ result = SO_NO_ERROR).
Proof.
  destruct c as [result| |f hash result|h b|h b|k vol pan paused nh|h|k|h b|text h0 result ph|k len|h tm result|h pos|k x y z vx vy vz vol paused bus nh|h fid dl dc fl| | | |m];
    try (eexists _, _; split; [reflexivity|]; split; [reflexivity|];
         cbn; split; [done|by intros (? & ? & _)]).
  unfold run, init, dispose, engine. cbn [mInited sounds soloud].
  destruct (Z.eqb_spec result SO_NO_ERROR) as [->|Hne];
    eexists _, _; (split; [reflexivity|]); (split; [reflexivity|]); cbn.
  - split; [by eexists|done].
  - split; [done|]. by intros (? & [= <-] & ?).
Qed.
